(** * Science Facts API: the fact corpus and its query handlers

    A shallow embedding of the Hono servers of the repository
    ([src/index.ts], the bundled-data server, and [api/index.ts], the
    serverless variant that fetches the data once and caches it), and the
    properties of the loader and of the seven query handlers. The last
    part covers the [POST /bot] route of the server that also hosts the
    Telegram bot, which answers chat commands from the same corpus.

    Conventions of the embedding.
    - A JavaScript number that the handlers compute with is either [NaN]
      or an integer; integers are kept exact (a double is exact up to
      2^53, far above any corpus size), and [-0] is identified with [0]:
      no handler distinguishes them.
    - Strings are ASCII strings; [toLowerCase] and the white space that
      [parseInt] skips are the ASCII parts of the ECMAScript definitions.
    - [undefined] is [None]. *)

From Stdlib Require Import ZArith Ascii Lia.
From stdpp Require Import base option list strings pretty gmap sorting.

Local Open Scope Z_scope.

(** ** The JavaScript primitives the handlers use *)

Module JS.

(** The numbers that occur in the handlers: results of [parseInt], array
    lengths, and sums and minima of those. *)
Inductive number : Type :=
| NaN
| Num (z : Z).

Global Instance number_eq_dec : EqDecision number.
Proof. solve_decision. Defined.

(** [Math.min(a, b)]: [NaN] as soon as one argument is. *)
Definition Math_min (a b : number) : number :=
  match a, b with
  | Num x, Num y => Num (Z.min x y)
  | _, _ => NaN
  end.

(** [a + b] on numbers. *)
Definition add (a b : number) : number :=
  match a, b with
  | Num x, Num y => Num (x + y)
  | _, _ => NaN
  end.

(** [a < b] on numbers: every comparison with [NaN] is false. *)
Definition lt (a b : number) : bool :=
  match a, b with
  | Num x, Num y => bool_decide (x < y)
  | _, _ => false
  end.

(** [a === b] on numbers: [NaN] is equal to nothing. *)
Definition strict_eq (a b : number) : bool :=
  match a, b with
  | Num x, Num y => bool_decide (x = y)
  | _, _ => false
  end.

(** [isNaN(a)]. *)
Definition isNaN (a : number) : bool :=
  match a with NaN => true | Num _ => false end.

(** [a ?? b]. *)
Definition nullish {A} (a : option A) (b : A) : A :=
  match a with Some x => x | None => b end.

(** [!s] for a string that may be [undefined]: [undefined] and the empty
    string are falsy. *)
Definition falsy (s : option string) : bool :=
  match s with
  | None | Some "" => true
  | Some (String _ _) => false
  end.

(** *** Strings *)

Definition is_upper (c : ascii) : bool :=
  ((65 <=? N_of_ascii c) && (N_of_ascii c <=? 90))%N.

Definition is_lower (c : ascii) : bool :=
  ((97 <=? N_of_ascii c) && (N_of_ascii c <=? 122))%N.

Definition toLowerCase_char (c : ascii) : ascii :=
  if is_upper c then ascii_of_N (N_of_ascii c + 32) else c.

(** [s.toLowerCase()]. *)
Fixpoint toLowerCase (s : string) : string :=
  match s with
  | "" => ""
  | String c s' => String (toLowerCase_char c) (toLowerCase s')
  end.

(** [s.startsWith(t)]. *)
Fixpoint startsWith (s t : string) : bool :=
  match t, s with
  | "", _ => true
  | String _ _, "" => false
  | String b t', String a s' => bool_decide (a = b) && startsWith s' t'
  end.

(** [s.includes(t)]: [t] occurs in [s] at some position. *)
Fixpoint includes (s t : string) : bool :=
  startsWith s t ||
  match s with
  | "" => false
  | String _ s' => includes s' t
  end.

(** *** parseInt *)

(** The white space and line terminators of ECMAScript below U+0080. *)
Definition is_white_space (c : ascii) : bool :=
  let n := N_of_ascii c in
  ((n =? 9) || (n =? 10) || (n =? 11) || (n =? 12) || (n =? 13) || (n =? 32))%N.

Fixpoint trim_start (s : string) : string :=
  match s with
  | "" => ""
  | String c s' => if is_white_space c then trim_start s' else s
  end.

(** The value of a digit in radixes up to 36. *)
Definition digit_value (c : ascii) : option Z :=
  let n := Z.of_N (N_of_ascii c) in
  if (48 <=? n) && (n <=? 57) then Some (n - 48)
  else if (97 <=? n) && (n <=? 122) then Some (n - 87)
  else if (65 <=? n) && (n <=? 90) then Some (n - 55)
  else None.

(** The longest prefix of [s] made of radix-[R] digits, read as a number;
    [acc] is what was read so far, [None] when no digit was. *)
Fixpoint parse_digits (R : Z) (s : string) (acc : option Z) : option Z :=
  match s with
  | "" => acc
  | String c s' =>
      match digit_value c with
      | Some d =>
          if d <? R then parse_digits R s' (Some (nullish acc 0 * R + d))
          else acc
      | None => acc
      end
  end.

(** A leading [-] or [+] is the sign. *)
Definition strip_sign (s : string) : Z * string :=
  match s with
  | String c s' =>
      if bool_decide (c = "-"%char) then (-1, s')
      else if bool_decide (c = "+"%char) then (1, s')
      else (1, s)
  | "" => (1, s)
  end.

(** A leading [0x] or [0X] selects radix 16; the radix is 10 otherwise. *)
Definition strip_prefix (s : string) : Z * string :=
  match s with
  | String c (String x s') =>
      if bool_decide (c = "0"%char)
         && (bool_decide (x = "x"%char) || bool_decide (x = "X"%char))
      then (16, s')
      else (10, s)
  | _ => (10, s)
  end.

(** [parseInt(s)] with no radix argument. *)
Definition parseInt (s : string) : number :=
  let '(sign, s1) := strip_sign (trim_start s) in
  let '(R, s2) := strip_prefix s1 in
  match parse_digits R s2 None with
  | None => NaN
  | Some m => Num (sign * m)
  end.

(** *** Arrays *)

Definition ToIntegerOrInfinity (n : number) : Z :=
  match n with NaN => 0 | Num z => z end.

(** How [slice] resolves a start or an end against the length: a negative
    value counts from the end, and both are clamped to the array. *)
Definition relative_index (len rel : Z) : Z :=
  if rel <? 0 then Z.max (len + rel) 0 else Z.min rel len.

(** [l.slice(start, end)]. *)
Definition slice {A} (l : list A) (start end_ : number) : list A :=
  let len := Z.of_nat (length l) in
  let k := relative_index len (ToIntegerOrInfinity start) in
  let final := relative_index len (ToIntegerOrInfinity end_) in
  take (Z.to_nat (Z.max (final - k) 0)) (drop (Z.to_nat k) l).

(** [l.find(p)]: the first element that satisfies [p]. *)
Fixpoint find {A} (p : A → bool) (l : list A) : option A :=
  match l with
  | [] => None
  | x :: l' => if p x then Some x else find p l'
  end.

(** [l.filter(p)]. *)
Definition filter {A} (p : A → bool) (l : list A) : list A :=
  base.filter (λ x, p x = true) l.

(** [[...new Set(l)]]: a set iterates in insertion order, so the spread
    keeps the first occurrence of each value. *)
Definition Set_add `{EqDecision A} (acc : list A) (x : A) : list A :=
  if decide (x ∈ acc) then acc else acc ++ [x].

Definition spread_Set `{EqDecision A} (l : list A) : list A :=
  foldl Set_add [] l.

(** [l.sort()] on strings: ascending by code units. *)
Definition sort (l : list string) : list string :=
  merge_sort String.le l.

End JS.

Import JS.

(** ** The corpus *)

(** An entry of [facts.json]. *)
Record RawFact : Type := {
  raw_text : string;
  raw_category : string;
  raw_source_url : option string;
  raw_source_file : option string
}.

Record Fact : Type := {
  id : Z;
  text : string;
  category : string;
  source_url : option string;
  source_file : option string
}.

Global Instance Fact_eq_dec : EqDecision Fact.
Proof. solve_decision. Defined.

(** [{ ...f, id: i + 1 }]. *)
Definition with_id (i : nat) (f : RawFact) : Fact := {|
  id := Z.of_nat i + 1;
  text := raw_text f;
  category := raw_category f;
  source_url := raw_source_url f;
  source_file := raw_source_file f
|}.

(** [factsData.map((f, i) => ({ ...f, id: i + 1 }))]. *)
Definition load (factsData : list RawFact) : list Fact :=
  imap with_id factsData.

(** [[...new Set(facts.map((f) => f.category))].sort()]. *)
Definition categories (facts : list Fact) : list string :=
  sort (spread_Set (category <$> facts)).

(** ** Responses *)

Inductive api_error : Type :=
| MissingQ                               (* "Missing 'q' parameter" *)
| InvalidId                              (* "Invalid ID" *)
| FactNotFound (n : Z)                   (* "Fact <n> not found" *)
| CategoryNotFound (name : string).      (* "Category '<name>' not found" *)

Record pagination : Type := {
  total : nat;
  limit : number;
  offset : number;
  hasMore : bool
}.

Inductive payload : Type :=
| Page (data : list Fact) (p : pagination)
| One (data : option Fact)
| Many (data : list (option Fact))
| Matches (data : list Fact) (count : nat) (query : string)
| Names (data : list string) (count : nat)
| InCategory (data : list Fact) (name : string) (count : nat)
| Single (data : Fact)
| Statistics (totalFacts ncategories uniqueSources : nat)
| Failure (error : api_error).

Record response : Type := {
  status : Z;
  body : payload
}.

(** [c.json(body)] and [c.json(body, status)]. *)
Definition json (b : payload) : response := {| status := 200; body := b |}.
Definition json_status (b : payload) (s : Z) : response := {| status := s; body := b |}.

(** ** The handlers, over the loaded corpus *)

(** The handlers only read [facts]: [slice], [filter], [find], [map] and
    indexing build new arrays or return elements, [push] fills the local
    [result], and [sort] is applied to the array that the spread of the
    set has just built. *)

Section handlers.

Variable facts : list Fact.

(** [GET /facts?limit&offset]. *)
Definition listPage (limit_q offset_q : option string) : response :=
  let limit := Math_min (parseInt (nullish limit_q "100")) (Num 1000) in
  let offset := parseInt (nullish offset_q "0") in
  let paginated := slice facts offset (add offset limit) in
  json (Page paginated {|
    total := length facts;
    limit := limit;
    offset := offset;
    hasMore := lt (add offset limit) (Num (Z.of_nat (length facts)))
  |}).

(** The loop of [GET /facts/random]. [draws] are the successive values
    of [Math.floor(Math.random() * facts.length)]; the loop returns
    [None] when it has used them all and still wants another one. *)
Fixpoint sample_loop (count : number) (draws : list nat)
    (indices : gset nat) (result : list (option Fact))
    : option (list (option Fact)) :=
  if lt (Num (Z.of_nat (length result))) count
     && bool_decide (length result < length facts)%nat
  then
    match draws with
    | [] => None
    | idx :: draws' =>
        if decide (idx ∈ indices)
        then sample_loop count draws' indices result
        else sample_loop count draws' ({[idx]} ∪ indices) (result ++ [facts !! idx])
    end
  else Some result.

(** [GET /facts/random?count]. *)
Definition randomSample (count_q : option string) (draws : list nat)
    : option response :=
  let count := Math_min (parseInt (nullish count_q "1")) (Num 100) in
  result ← sample_loop count draws ∅ [];
  Some (json (if strict_eq count (Num 1) then One (mjoin (head result))
              else Many result)).

(** [GET /facts/search?q]. *)
Definition searchText (query : option string) : response :=
  if falsy query then json_status (Failure MissingQ) 400
  else
    let query := nullish query "" in
    let q := toLowerCase query in
    let results := JS.filter (λ f, includes (toLowerCase (text f)) q) facts in
    json (Matches results (length results) query).

(** [GET /facts/categories]. *)
Definition listCategories : response :=
  json (Names (categories facts) (length (categories facts))).

(** [GET /facts/category/:name]. *)
Definition byCategory (name : string) : response :=
  let category_ := toLowerCase name in
  let matched :=
    JS.filter (λ f, bool_decide (toLowerCase (category f) = category_)) facts in
  if bool_decide (length matched = 0%nat)
  then json_status (Failure (CategoryNotFound category_)) 404
  else json (InCategory matched name (length matched)).

(** [GET /facts/:id]. *)
Definition byId (id_p : string) : response :=
  let n := parseInt id_p in
  if isNaN n then json_status (Failure InvalidId) 400
  else
    match JS.find (λ f, strict_eq (Num (id f)) n) facts with
    | None => json_status (Failure (FactNotFound (ToIntegerOrInfinity n))) 404
    | Some fact => json (Single fact)
    end.

(** [GET /stats]. *)
Definition stats : response :=
  json (Statistics (length facts) (length (categories facts)) 13).

End handlers.

(** ** The cached loader of [api/index.ts]

    The serverless variant keeps the corpus in the module variable
    [factsCache] and every handler starts with [await loadFacts()]. A
    handler is a computation over the process state; it is fulfilled with
    a value or rejected (the failed [fetch], or the body that is not JSON,
    throws out of [loadFacts]). Requests are served one after the other. *)

Record process : Type := {
  factsCache : option (list Fact);
  fetches : nat                  (* how many times facts.json was requested *)
}.

Inductive outcome (A : Type) : Type :=
| Fulfilled (a : A)
| Rejected
| Unfinished.                    (* still in the sampling loop, see [sample_loop] *)

Arguments Fulfilled {A} a.
Arguments Rejected {A}.
Arguments Unfinished {A}.

Definition async (A : Type) : Type := process → outcome A * process.

Definition async_ret {A} (a : A) : async A := λ p, (Fulfilled a, p).

Definition async_bind {A B} (m : async A) (k : A → async B) : async B :=
  λ p,
    match m p with
    | (Fulfilled a, p') => k a p'
    | (Rejected, p') => (Rejected, p')
    | (Unfinished, p') => (Unfinished, p')
    end.

Notation "'await' x ← m ; k" := (async_bind m (λ x, k))
  (at level 20, x name, m at level 100, k at level 200, only parsing).

Inductive request : Type :=
| GetFacts (limit_q offset_q : option string)
| GetRandom (count_q : option string) (draws : list nat)
| GetSearch (q : option string)
| GetCategories
| GetCategory (name : string)
| GetFact (id_p : string)
| GetStats.

Section remote.

(** What the [n]-th request for facts.json yields once [res.json()] has
    read it: the entries, or [None] when the fetch rejects, the body is
    not JSON, or it is not an array (then [map] throws). In each of these
    cases the exception leaves [loadFacts] before the assignment. *)
Variable network : nat → option (list RawFact).

Definition fetch_json : async (list RawFact) :=
  λ p,
    (match network (fetches p) with
     | Some data => Fulfilled data
     | None => Rejected
     end,
     {| factsCache := factsCache p; fetches := S (fetches p) |}).

Definition read_factsCache : async (option (list Fact)) :=
  λ p, (Fulfilled (factsCache p), p).

Definition write_factsCache (c : list Fact) : async unit :=
  λ p, (Fulfilled (), {| factsCache := Some c; fetches := fetches p |}).

(** [loadFacts]. An array is truthy even when it is empty, so any cached
    corpus is returned. *)
Definition loadFacts : async (list Fact) :=
  await cache ← read_factsCache;
  match cache with
  | Some c => async_ret c
  | None =>
      await data ← fetch_json;
      await _ ← write_factsCache (load data);
      async_ret (load data)
  end.

(** The routes of [api/index.ts]; after [loadFacts] each one is the body
    of the corresponding route of [src/index.ts]. *)
Definition handle (r : request) : async response :=
  await facts ← loadFacts;
  match r with
  | GetFacts limit_q offset_q => async_ret (listPage facts limit_q offset_q)
  | GetRandom count_q draws =>
      match randomSample facts count_q draws with
      | Some resp => async_ret resp
      | None => λ p, (Unfinished, p)
      end
  | GetSearch q => async_ret (searchText facts q)
  | GetCategories => async_ret (listCategories facts)
  | GetCategory name => async_ret (byCategory facts name)
  | GetFact id_p => async_ret (byId facts id_p)
  | GetStats => async_ret (stats facts)
  end.

(** Serving requests one after the other. *)
Fixpoint serve (rs : list request) (p : process) : list (outcome response) * process :=
  match rs with
  | [] => ([], p)
  | r :: rs' =>
      let '(o, p') := handle r p in
      let '(os, p'') := serve rs' p' in
      (o :: os, p'')
  end.

End remote.

(** ** Vocabulary of the specification *)

(** The elements of [l] at the positions [i] with [lo ≤ i < hi], in order:
    the half-open range [[lo, hi)] of the corpus. *)
Definition positions_between {A} (lo hi : Z) (l : list A) : list A :=
  snd <$> base.filter (λ p : nat * A, lo ≤ Z.of_nat (fst p) < hi) (imap pair l).

(** Two characters that are equal up to the case of a letter. *)
Definition same_letter (a b : ascii) : Prop :=
  a = b
  ∨ (is_upper a = true ∧ N_of_ascii b = (N_of_ascii a + 32)%N)
  ∨ (is_upper b = true ∧ N_of_ascii a = (N_of_ascii b + 32)%N).

(** Two strings that are equal up to the case of their letters. *)
Inductive same_ignoring_case : string → string → Prop :=
| same_empty : same_ignoring_case "" ""
| same_String a b s t :
    same_letter a b → same_ignoring_case s t →
    same_ignoring_case (String a s) (String b t).

(** [q] occurs in [t] when the case of letters is ignored. *)
Definition occurs_ignoring_case (q t : string) : Prop :=
  ∃ pre mid post, t = pre +:+ mid +:+ post ∧ same_ignoring_case mid q.

Definition is_decimal_digit (c : ascii) : bool :=
  ((48 <=? N_of_ascii c) && (N_of_ascii c <=? 57))%N.

Fixpoint all_decimal (s : string) : bool :=
  match s with
  | "" => true
  | String c s' => is_decimal_digit c && all_decimal s'
  end.

(** The number a string of decimal digits denotes, after [acc]. *)
Fixpoint decimal_value (acc : Z) (s : string) : Z :=
  match s with
  | "" => acc
  | String c s' => decimal_value (acc * 10 + (Z.of_N (N_of_ascii c) - 48)) s'
  end.

(** The first character of [s] satisfies [p]. *)
Definition begins_with (p : ascii → bool) (s : string) : bool :=
  match s with
  | "" => false
  | String c _ => p c
  end.

Definition is_x (c : ascii) : bool :=
  bool_decide (c = "x"%char) || bool_decide (c = "X"%char).

(** How many facts the sampling loop collects before it stops. *)
Definition sample_size (count : number) (n : nat) : nat :=
  match count with
  | NaN => 0%nat
  | Num c => Z.to_nat (Z.min c (Z.of_nat n))
  end.

(** [r] holds exactly the elements of [l] that satisfy [P], in the order
    of [l]. *)
Inductive exactly_those {A} (P : A → Prop) : list A → list A → Prop :=
| those_nil : exactly_those P [] []
| those_keep x l r : P x → exactly_those P l r → exactly_those P (x :: l) (x :: r)
| those_skip x l r : ¬ P x → exactly_those P l r → exactly_those P (x :: l) r.

(** The fact [f] filed under the category [g f] instead of its own. *)
Definition relabel (g : Fact → string) (f : Fact) : Fact := {|
  id := id f;
  text := text f;
  category := g f;
  source_url := source_url f;
  source_file := source_file f
|}.

Fixpoint all_white_space (s : string) : bool :=
  match s with
  | "" => true
  | String c s' => is_white_space c && all_white_space s'
  end.

(** The sign a sign prefix stands for. *)
Definition sign_value (sg : string) : Z :=
  if bool_decide (sg = "-") then -1 else 1.

(** ** The example corpus of the specification: five facts with the
    categories Physics, Physics, Chemistry, physics, Biology *)

Definition raw (t c : string) : RawFact :=
  {| raw_text := t; raw_category := c; raw_source_url := None; raw_source_file := None |}.

Definition example_data : list RawFact :=
  [ raw "Light is both a wave and a particle" "Physics";
    raw "Quantum tunnelling powers the Sun" "Physics";
    raw "Water expands when it freezes" "Chemistry";
    raw "Sound cannot cross a vacuum" "physics";
    raw "Octopuses have three hearts" "Biology" ].

Definition example_facts : list Fact := load example_data.


(** ** Statements of the specification that are compared with the code *)

(** The reading of the listing operation in the specification: the limit
    is clamped to [min(limit, 1000)], the page is the range
    [[offset, offset+limit)] of the corpus, and the metadata are the
    total, the effective limit and offset, and
    [hasMore = offset+limit < total]. *)
Definition listPage_as_specified
    (facts : list Fact) (limit_q offset_q : option string) : Prop :=
  ∀ l o,
    parseInt (nullish limit_q "100") = Num l →
    parseInt (nullish offset_q "0") = Num o →
    listPage facts limit_q offset_q
    = json (Page (positions_between o (o + Z.min l 1000) facts) {|
        total := length facts;
        limit := Num (Z.min l 1000);
        offset := Num o;
        hasMore := bool_decide (o + Z.min l 1000 < Z.of_nat (length facts))
      |}).

(** An offset that addresses no position of the corpus gives an empty
    page. *)
Definition listPage_empty_out_of_range
    (facts : list Fact) (limit_q offset_q : option string) : Prop :=
  ∀ o,
    parseInt (nullish offset_q "0") = Num o →
    o < 0 ∨ Z.of_nat (length facts) ≤ o →
    ∃ p, listPage facts limit_q offset_q = json (Page [] p).

(** A network that is down for the first request and up afterwards. *)
Definition down_then_up (n : nat) : option (list RawFact) :=
  match n with
  | O => None
  | S _ => Some example_data
  end.

(** An id that begins with an integer is looked up as that integer,
    whatever follows it, and is never an invalid id. *)
Definition byId_ignores_trailing
    (facts : list Fact) (lead trailing : string) : Prop :=
  ∀ k,
    parseInt lead = Num k →
    byId facts (lead +:+ trailing) ≠ json_status (Failure InvalidId) 400
    ∧ byId facts (lead +:+ trailing) = byId facts lead.

(** The reading of the sampling operation in the specification: the
    result holds exactly [min(min(count, 100), N)] distinct facts; it is a
    single fact when [count] is 1 and an array of facts otherwise. *)
Definition randomSample_as_specified
    (facts : list Fact) (count_q : option string) (draws : list nat) : Prop :=
  ∀ c resp,
    parseInt (nullish count_q "1") = Num c →
    randomSample facts count_q draws = Some resp →
    ∃ picked : list Fact,
      NoDup picked
      ∧ Z.of_nat (length picked) = Z.min (Z.min c 100) (Z.of_nat (length facts))
      ∧ (c = 1 → ∃ f, picked = [f] ∧ resp = json (One (Some f)))
      ∧ (c ≠ 1 → resp = json (Many (Some <$> picked))).

(** ** More of the JavaScript string library *)

(** A line feed and a double quote, as they occur in the message
    templates. *)
Definition nl : string := String "010"%char "".
Definition dquote : string := String "034"%char "".

(** [s.trimEnd()]. *)
Fixpoint trim_end (s : string) : string :=
  match s with
  | "" => ""
  | String c s' =>
      match trim_end s' with
      | "" => if is_white_space c then "" else String c ""
      | r => String c r
      end
  end.

(** [s.trim()]. *)
Definition trim (s : string) : string := trim_end (trim_start s).

(** [s.slice(n)] for a position [n] that is not negative. *)
Fixpoint slice_from (n : nat) (s : string) : string :=
  match n, s with
  | O, _ => s
  | S _, "" => ""
  | S n', String _ s' => slice_from n' s'
  end.

(** [s.replace(/a/g, b)] for single characters [a] and [b]. *)
Fixpoint replace_all (a b : ascii) (s : string) : string :=
  match s with
  | "" => ""
  | String c s' =>
      String (if bool_decide (c = a) then b else c) (replace_all a b s')
  end.

(** [l.join(sep)]. *)
Fixpoint join (sep : string) (l : list string) : string :=
  match l with
  | [] => ""
  | [x] => x
  | x :: l' => x +:+ sep +:+ join sep l'
  end.

(** [String(n)] and [`${n}`] for an integer. *)
Definition Number_toString (n : number) : string :=
  match n with
  | NaN => "NaN"
  | Num z => pretty z
  end.

(** The character [a] occurs in [s]. *)
Fixpoint has_char (a : ascii) (s : string) : bool :=
  match s with
  | "" => false
  | String c s' => bool_decide (c = a) || has_char a s'
  end.

(** The last character of [s] satisfies [p]. *)
Fixpoint ends_with (p : ascii → bool) (s : string) : bool :=
  match s with
  | "" => false
  | String c "" => p c
  | String _ s' => ends_with p s'
  end.

(** ** The Telegram bot route, [POST /bot]

    The route hands messages to the helper [telegram] one after the
    other and does not look at what the helper returns. Its model is the
    list of these messages, in order, and how the route ends: a send that
    throws ends the route there, so what reaches Telegram is a prefix of
    the list. *)

Record Message : Type := {
  chat_id : Z;
  msg_text : string;
  parse_mode : option string;          (* absent in the plain messages *)
  disable_web_page_preview : bool      (* [false] when absent *)
}.

Definition sending (A : Type) : Type := (list Message * outcome A)%type.

Definition sending_ret {A} (a : A) : sending A := ([], Fulfilled a).

Definition sending_bind {A B} (m : sending A) (k : A → sending B) : sending B :=
  match m with
  | (sent, Fulfilled a) => let '(sent', o) := k a in (sent ++ sent', o)
  | (sent, Rejected) => (sent, Rejected)
  | (sent, Unfinished) => (sent, Unfinished)
  end.

(** [await telegram("sendMessage", m)]. *)
Definition telegram (m : Message) : sending unit := ([m], Fulfilled ()).

(** [for (const x of l) { body }]. *)
Fixpoint for_of {A} (l : list A) (body : A → sending unit) : sending unit :=
  match l with
  | [] => sending_ret ()
  | x :: l' => sending_bind (body x) (λ _, for_of l' body)
  end.

(** [formatFact]. An absent or empty [source_url] adds no link. *)
Definition formatFact (fact : Fact) : string :=
  let msg :=
    "🔬 *" +:+ replace_all "_" " " (category fact) +:+ "*" +:+ nl +:+ nl
    +:+ text fact in
  if falsy (source_url fact) then msg
  else msg +:+ nl +:+ nl +:+ "[Source](" +:+ nullish (source_url fact) "" +:+ ")".

Definition plain (chatId : Z) (t : string) : Message :=
  {| chat_id := chatId; msg_text := t;
     parse_mode := None; disable_web_page_preview := false |}.

Definition markdown (chatId : Z) (t : string) : Message :=
  {| chat_id := chatId; msg_text := t;
     parse_mode := Some "Markdown"; disable_web_page_preview := false |}.

Definition fact_message (chatId : Z) (fact : Fact) : Message :=
  {| chat_id := chatId; msg_text := formatFact fact;
     parse_mode := Some "Markdown"; disable_web_page_preview := true |}.

(** Sending [formatFact(facts[idx])]: [formatFact] throws on [undefined],
    before anything is sent. *)
Definition send_fact (chatId : Z) (fact : option Fact) : sending unit :=
  match fact with
  | Some f => telegram (fact_message chatId f)
  | None => ([], Rejected)
  end.

(** [while (indices.size < 5) indices.add(...)]; the set is kept in
    insertion order, which is the order in which it is iterated. *)
Fixpoint random5_loop (draws : list nat) (indices : list nat) : option (list nat) :=
  if bool_decide (length indices < 5)%nat then
    match draws with
    | [] => None
    | idx :: draws' => random5_loop draws' (Set_add indices idx)
    end
  else Some indices.

Section bot.

(** [n.toLocaleString()], which depends on the locale of the runtime. *)
Variable toLocaleString : nat → string.

Variable facts : list Fact.
Variable chatId : Z.

Definition start_text : string :=
  "🔬 *Science Facts Bot*" +:+ nl +:+ nl
  +:+ "I share fascinating science facts!" +:+ nl +:+ nl
  +:+ "*Commands:*" +:+ nl
  +:+ "/random - Random fact" +:+ nl
  +:+ "/random5 - 5 random facts" +:+ nl
  +:+ "/search <query> - Search facts" +:+ nl
  +:+ "/categories - List categories" +:+ nl
  +:+ "/category <name> - Facts by category" +:+ nl
  +:+ "/stats - Statistics".

(** The fact at a random index, for [/random] and for any text that is
    no command. *)
Definition random_reply (draws : list nat) : sending unit :=
  match draws with
  | [] => ([], Unfinished)
  | idx :: _ => send_fact chatId (facts !! idx)
  end.

Definition random5_reply (draws : list nat) : sending unit :=
  match random5_loop draws [] with
  | None => ([], Unfinished)
  | Some indices => for_of indices (λ idx, send_fact chatId (facts !! idx))
  end.

(** The reply to [/search <query>] once the query is known. *)
Definition search_reply (query : string) : sending unit :=
  if falsy (Some query) then telegram (plain chatId "Usage: /search <query>")
  else
    let q := toLowerCase query in
    let results := JS.filter (λ f, includes (toLowerCase (text f)) q) facts in
    if bool_decide (length results = 0%nat)
    then
      telegram (plain chatId ("No facts found for " +:+ dquote +:+ query +:+ dquote))
    else
      sending_bind
        (telegram (plain chatId
           ("Found " +:+ Number_toString (Num (Z.of_nat (length results)))
            +:+ " facts for " +:+ dquote +:+ query +:+ dquote +:+ ":")))
        (λ _, for_of (slice results (Num 0) (Num 3))
                (λ fact, telegram (fact_message chatId fact))).

Definition categories_reply : sending unit :=
  let list :=
    join (nl +:+ "• ")
      (replace_all "_" " " <$> slice (categories facts) (Num 0) (Num 30)) in
  telegram (markdown chatId
    ("📚 *Categories* ("
     +:+ Number_toString (Num (Z.of_nat (length (categories facts))))
     +:+ " total)" +:+ nl +:+ nl +:+ "• " +:+ list +:+ nl +:+ nl
     +:+ "_Use /category <name>_")).

(** The reply to [/category <name>] once the name is normalised. *)
Definition category_reply (cat : string) : sending unit :=
  let matched :=
    JS.filter (λ f, bool_decide (toLowerCase (category f) = cat)) facts in
  if bool_decide (length matched = 0%nat)
  then telegram (plain chatId "Category not found. Use /categories")
  else
    sending_bind
      (telegram (markdown chatId
         ("📂 *" +:+ replace_all "_" " " cat +:+ "* ("
          +:+ Number_toString (Num (Z.of_nat (length matched)))
          +:+ " facts)")))
      (λ _, for_of (slice matched (Num 0) (Num 3))
              (λ fact, telegram (fact_message chatId fact))).

Definition stats_reply : sending unit :=
  telegram (markdown chatId
    ("📊 *Statistics*" +:+ nl +:+ nl
     +:+ "• Facts: " +:+ toLocaleString (length facts) +:+ nl
     +:+ "• Categories: "
     +:+ Number_toString (Num (Z.of_nat (length (categories facts)))) +:+ nl
     +:+ "• Sources: 13")).

(** The body of the route after [loadFacts]: [message_text] is
    [update.message?.text]. *)
Definition bot_route (message_text : option string) (draws : list nat)
    : sending unit :=
  if falsy message_text then sending_ret ()
  else
    let text := trim (nullish message_text "") in
    if bool_decide (text = "/start") then telegram (markdown chatId start_text)
    else if bool_decide (text = "/random") then random_reply draws
    else if bool_decide (text = "/random5") then random5_reply draws
    else if startsWith text "/search "
    then search_reply (trim (slice_from 8 text))
    else if bool_decide (text = "/categories") then categories_reply
    else if startsWith text "/category "
    then
      category_reply
        (replace_all " " "_" (toLowerCase (trim (slice_from 10 text))))
    else if bool_decide (text = "/stats") then stats_reply
    else random_reply draws.

End bot.

(** The answer of the serverless server to a request, on a corpus. *)
Definition respond (facts : list Fact) (r : request) : outcome response :=
  match r with
  | GetFacts limit_q offset_q => Fulfilled (listPage facts limit_q offset_q)
  | GetRandom count_q draws =>
      match randomSample facts count_q draws with
      | Some resp => Fulfilled resp
      | None => Unfinished
      end
  | GetSearch q => Fulfilled (searchText facts q)
  | GetCategories => Fulfilled (listCategories facts)
  | GetCategory name => Fulfilled (byCategory facts name)
  | GetFact id_p => Fulfilled (byId facts id_p)
  | GetStats => Fulfilled (stats facts)
  end.

(** The [data] of a page, and of a list of matches. *)
Definition page_of (r : response) : list Fact :=
  match body r with
  | Page data _ | Matches data _ _ | InCategory data _ _ => data
  | _ => []
  end.

(** [POST /bot]: the route first awaits [loadFacts], like every other
    route of the server. *)
Definition bot (toLocaleString : nat → string)
    (network : nat → option (list RawFact))
    (chatId : Z) (message_text : option string) (draws : list nat)
    : process → sending unit * process :=
  λ p,
    match loadFacts network p with
    | (Fulfilled facts, p') =>
        (bot_route toLocaleString facts chatId message_text draws, p')
    | (Rejected, p') => (([], Rejected), p')
    | (Unfinished, p') => (([], Unfinished), p')
    end.

(** A character that [trim] removes, or that is shown as a space. *)
Definition is_edge (c : ascii) : bool :=
  is_white_space c || bool_decide (c = "_"%char).

Definition is_U (c : ascii) : bool := bool_decide (c = "U"%char).

(** A corpus with a category written with an underscore and one written
    with a space. *)
Definition labelled_data : list RawFact :=
  [ raw "Electrons tunnel through barriers" "Quantum_Physics";
    raw "Neutron stars spin" "Space Science";
    raw "Entangled photons stay correlated" "Quantum_Physics" ].

Definition labelled_facts : list Fact := load labelled_data.

(** What every reply has: at most five messages, and none that begins
    with the letter U. *)
Definition reply_ok (m : sending unit) : Prop :=
  (length (fst m) ≤ 5)%nat
  ∧ Forall (λ msg, begins_with is_U (msg_text msg) = false) (fst m).

(** * Properties *)

(** ** The loader *)

Lemma length_load factsData : length (load factsData) = length factsData.
Proof. apply length_imap. Qed.

Lemma lookup_load factsData i :
  load factsData !! i = with_id i <$> factsData !! i.
Proof. apply list_lookup_imap. Qed.

Lemma ids_load factsData :
  id <$> load factsData = seqZ 1 (Z.of_nat (length factsData)).
Proof.
  apply list_eq. intros i.
  rewrite list_lookup_fmap, lookup_load.
  destruct (factsData !! i) as [r|] eqn:Hi; simpl.
  - apply lookup_lt_Some in Hi.
    rewrite lookup_seqZ_lt by lia. f_equal. lia.
  - apply lookup_ge_None in Hi.
    rewrite lookup_seqZ_ge by lia. reflexivity.
Qed.

Lemma NoDup_ids_load factsData : NoDup (id <$> load factsData).
Proof. rewrite ids_load. apply NoDup_seqZ. Qed.

Lemma NoDup_load factsData : NoDup (load factsData).
Proof. eapply NoDup_fmap_1, NoDup_ids_load. Qed.

Lemma elem_of_load factsData f :
  f ∈ load factsData ↔ ∃ i r, factsData !! i = Some r ∧ f = with_id i r.
Proof.
  rewrite list_elem_of_lookup. split.
  - intros [i Hi]. rewrite lookup_load in Hi.
    destruct (factsData !! i) as [r|] eqn:Hr; simplify_eq/=. eauto.
  - intros (i & r & Hr & ->). exists i. by rewrite lookup_load, Hr.
Qed.

Lemma id_bounds_load factsData f :
  f ∈ load factsData → 1 ≤ id f ≤ Z.of_nat (length factsData).
Proof.
  intros (i & r & Hr & ->)%elem_of_load. apply lookup_lt_Some in Hr.
  simpl. lia.
Qed.

(** ** The cached loader *)

Section remote_facts.

Variable network : nat → option (list RawFact).

Lemma loadFacts_cached c n :
  loadFacts network {| factsCache := Some c; fetches := n |}
  = (Fulfilled c, {| factsCache := Some c; fetches := n |}).
Proof. reflexivity. Qed.

Lemma loadFacts_first n :
  loadFacts network {| factsCache := None; fetches := n |}
  = match network n with
    | Some data =>
        (Fulfilled (load data),
         {| factsCache := Some (load data); fetches := S n |})
    | None => (Rejected, {| factsCache := None; fetches := S n |})
    end.
Proof.
  unfold loadFacts, async_bind, read_factsCache, fetch_json; simpl.
  destruct (network n); reflexivity.
Qed.

Lemma loadFacts_fulfilled p c p' :
  loadFacts network p = (Fulfilled c, p') → factsCache p' = Some c.
Proof.
  destruct p as [[c0|] n].
  - rewrite loadFacts_cached. by intros [= <- <-].
  - rewrite loadFacts_first. destruct (network n); by intros [= <- <-].
Qed.

Lemma handle_loaded r c n :
  ∃ o, handle network r {| factsCache := Some c; fetches := n |}
       = (o, {| factsCache := Some c; fetches := n |}).
Proof.
  unfold handle, async_bind. rewrite loadFacts_cached.
  destruct r; try (eexists; reflexivity).
  destruct (randomSample c count_q draws); eexists; reflexivity.
Qed.

Lemma serve_loaded rs c n :
  snd (serve network rs {| factsCache := Some c; fetches := n |})
  = {| factsCache := Some c; fetches := n |}.
Proof.
  induction rs as [|r rs IH]; [done|]. simpl.
  destruct (handle_loaded r c n) as [o ->].
  destruct (serve network rs _) as [os p'']. simpl in *. done.
Qed.

End remote_facts.

(** C3. The loader numbers the facts 1, 2, ..., N in source order and
    keeps what each entry says; and once the corpus is built no request
    (list, random, search, categories, by category, by id, stats) changes
    it: serving any request leaves the cached corpus as it was, and does
    not fetch. *)
Theorem corpus_ids_and_read_only :
  (∀ factsData,
     id <$> load factsData = seqZ 1 (Z.of_nat (length factsData))
     ∧ NoDup (id <$> load factsData)
     ∧ length (load factsData) = length factsData
     ∧ ∀ i, load factsData !! i = with_id i <$> factsData !! i)
  ∧ (∀ network r c n,
       snd (handle network r {| factsCache := Some c; fetches := n |})
       = {| factsCache := Some c; fetches := n |})
  ∧ (∀ network rs c n,
       snd (serve network rs {| factsCache := Some c; fetches := n |})
       = {| factsCache := Some c; fetches := n |}).
Proof.
  split; [|split].
  - intros factsData.
    auto using ids_load, NoDup_ids_load, length_load, lookup_load.
  - intros network r c n. by destruct (handle_loaded network r c n) as [o ->].
  - apply serve_loaded.
Qed.

(** ** Slices *)

Lemma positions_from_spec {A} (l : list A) (k : nat) (lo hi : Z) :
  snd <$> base.filter (λ p : nat * A, lo ≤ Z.of_nat (fst p) < hi)
            (imap (λ i x, ((k + i)%nat, x)) l)
  = take (Z.to_nat (hi - Z.max lo (Z.of_nat k))) (drop (Z.to_nat (lo - Z.of_nat k)) l).
Proof.
  revert k. induction l as [|x l IH]; intros k.
  - by rewrite drop_nil, take_nil.
  - rewrite imap_cons.
    rewrite (imap_ext _ (λ i y, ((S k + i)%nat, y))) by (intros; simpl; f_equal; lia).
    rewrite filter_cons. simpl fst. specialize (IH (S k)).
    destruct (decide (lo ≤ Z.of_nat (k + 0) < hi)) as [Hin|Hout].
    + rewrite fmap_cons, IH. simpl snd.
      replace (Z.to_nat (lo - Z.of_nat k)) with 0%nat by lia.
      replace (Z.to_nat (lo - Z.of_nat (S k))) with 0%nat by lia.
      replace (Z.to_nat (hi - Z.max lo (Z.of_nat k)))
        with (S (Z.to_nat (hi - Z.max lo (Z.of_nat (S k))))) by lia.
      reflexivity.
    + rewrite IH. destruct (decide (Z.of_nat k < lo)) as [Hlt|Hge].
      * replace (Z.to_nat (lo - Z.of_nat k))
          with (S (Z.to_nat (lo - Z.of_nat (S k)))) by lia.
        replace (Z.max lo (Z.of_nat (S k))) with (Z.max lo (Z.of_nat k)) by lia.
        reflexivity.
      * replace (Z.to_nat (hi - Z.max lo (Z.of_nat k))) with 0%nat by lia.
        replace (Z.to_nat (hi - Z.max lo (Z.of_nat (S k)))) with 0%nat by lia.
        reflexivity.
Qed.

Lemma positions_between_spec {A} (l : list A) (lo hi : Z) :
  positions_between lo hi l
  = take (Z.to_nat (hi - Z.max lo 0)) (drop (Z.to_nat lo) l).
Proof.
  unfold positions_between.
  rewrite (imap_ext _ (λ i y, ((0 + i)%nat, y))) by done.
  rewrite positions_from_spec. simpl. by rewrite Z.sub_0_r.
Qed.

Lemma positions_between_sublist {A} (l : list A) (lo hi : Z) :
  positions_between lo hi l `sublist_of` l.
Proof.
  rewrite positions_between_spec.
  etrans; [apply sublist_take|apply sublist_drop].
Qed.

Lemma lookup_positions_between {A} (l : list A) (lo hi : Z) (i : nat) :
  0 ≤ lo →
  positions_between lo hi l !! i
  = if decide (lo + Z.of_nat i < hi) then l !! (Z.to_nat lo + i)%nat else None.
Proof.
  intros Hlo. rewrite positions_between_spec.
  case_decide.
  - rewrite lookup_take_lt by lia. apply lookup_drop.
  - apply lookup_take_ge. lia.
Qed.

Lemma fmap_positions_between {A B} (f : A → B) (l : list A) (lo hi : Z) :
  f <$> positions_between lo hi l = positions_between lo hi (f <$> l).
Proof. by rewrite !positions_between_spec, fmap_take, fmap_drop. Qed.

(** The range [[lo, hi)] of a loaded corpus holds the ids [lo + 1] to
    [hi], as far as the corpus goes, in ascending order. *)
Lemma ids_positions_between_load factsData (lo hi : Z) :
  0 ≤ lo →
  id <$> positions_between lo hi (load factsData)
  = seqZ (lo + 1) (Z.min hi (Z.of_nat (length factsData)) - lo).
Proof.
  intros Hlo. rewrite fmap_positions_between, ids_load.
  apply list_eq. intros i. rewrite lookup_positions_between by done.
  case_decide as Hi.
  - destruct (decide (lo + Z.of_nat i < Z.of_nat (length factsData))).
    + rewrite !lookup_seqZ_lt by lia. f_equal. lia.
    + rewrite !lookup_seqZ_ge by lia. done.
  - rewrite lookup_seqZ_ge by lia. done.
Qed.

(** From a non-negative start to a non-negative end, [slice] is the
    half-open range of positions. *)
Lemma slice_positions_between {A} (l : list A) (s e : Z) :
  0 ≤ s → 0 ≤ e → slice l (Num s) (Num e) = positions_between s e l.
Proof.
  intros Hs He. rewrite positions_between_spec.
  unfold slice, relative_index; simpl.
  rewrite (proj2 (Z.ltb_ge s 0)), (proj2 (Z.ltb_ge e 0)) by lia.
  destruct (decide (Z.of_nat (length l) ≤ s)) as [Hbig|Hsmall].
  - rewrite !drop_ge, !take_nil by lia. reflexivity.
  - replace (Z.min s (Z.of_nat (length l))) with s by lia.
    destruct (decide (e ≤ Z.of_nat (length l))) as [Hle|Hgt].
    + f_equal. lia.
    + rewrite !take_ge by (rewrite length_drop; lia). done.
Qed.

Lemma slice_past_end {A} (l : list A) (s : Z) (e : number) :
  Z.of_nat (length l) ≤ s → slice l (Num s) e = [].
Proof.
  intros Hs. unfold slice, relative_index; simpl.
  rewrite (proj2 (Z.ltb_ge s 0)) by lia.
  rewrite drop_ge, take_nil by lia. reflexivity.
Qed.

Lemma slice_NaN {A} (l : list A) : slice l NaN NaN = [].
Proof.
  unfold slice, relative_index; simpl.
  replace (Z.min 0 (Z.of_nat (length l))) with 0 by lia. reflexivity.
Qed.

Lemma slice_sublist {A} (l : list A) (s e : number) : slice l s e `sublist_of` l.
Proof. unfold slice. etrans; [apply sublist_take|apply sublist_drop]. Qed.

(** ** listPage *)

(** C1, as amended. When the offset and the end [offset + min(limit, 1000)]
    are not negative, the page is the range [[offset, offset+limit)] of
    the corpus, in corpus order, and the metadata are the corpus size,
    the clamped limit, the offset, and [hasMore = offset+limit < total]. *)
Theorem listPage_page facts limit_q offset_q l o :
  parseInt (nullish limit_q "100") = Num l →
  parseInt (nullish offset_q "0") = Num o →
  0 ≤ o → 0 ≤ o + Z.min l 1000 →
  listPage facts limit_q offset_q
  = json (Page (positions_between o (o + Z.min l 1000) facts) {|
      total := length facts;
      limit := Num (Z.min l 1000);
      offset := Num o;
      hasMore := bool_decide (o + Z.min l 1000 < Z.of_nat (length facts))
    |}).
Proof.
  intros Hl Ho Hnn Hend. unfold listPage. rewrite Hl, Ho. simpl.
  by rewrite slice_positions_between.
Qed.

Lemma listPage_page_witness :
  listPage example_facts (Some "2") (Some "2")
  = json (Page (positions_between 2 4 example_facts) {|
      total := 5; limit := Num 2; offset := Num 2; hasMore := true |}).
Proof.
  apply (listPage_page example_facts (Some "2") (Some "2") 2 2);
    [reflexivity | reflexivity | lia | simpl; lia].
Defined.

(** C1, the example: on the five facts, limit 2 and offset 2 give the
    facts 3 and 4 and [hasMore]. *)
Example listPage_2_2 :
  ∃ page p,
    listPage example_facts (Some "2") (Some "2") = json (Page page p)
    ∧ id <$> page = [3; 4] ∧ hasMore p = true.
Proof. eexists _, _. split; [reflexivity|]. split; reflexivity. Qed.

Example listPage_2_4 :
  ∃ page p,
    listPage example_facts (Some "2") (Some "4") = json (Page page p)
    ∧ id <$> page = [5] ∧ hasMore p = false.
Proof. eexists _, _. split; [reflexivity|]. split; reflexivity. Qed.

(** C1, the counterexample: a negative offset, and a negative end, count
    from the end of the corpus. With offset -2 and limit 100 the page
    holds the facts 4 and 5, while the range [[-2, 98)] covers the whole
    corpus; with offset 0 and limit -1 the page holds the facts 1 to 4,
    while the range [[0, -1)] is empty. *)
Lemma listPage_negative_offset :
  ¬ listPage_as_specified example_facts (Some "100") (Some "-2")
  ∧ ¬ listPage_as_specified example_facts (Some "-1") (Some "0").
Proof.
  split; intros H.
  - specialize (H 100 (-2) eq_refl eq_refl). vm_compute in H. discriminate H.
  - specialize (H (-1) 0 eq_refl eq_refl). vm_compute in H. discriminate H.
Qed.

Example listPage_negative_offset_page :
  ∃ page p,
    listPage example_facts (Some "100") (Some "-2") = json (Page page p)
    ∧ id <$> page = [4; 5]
    ∧ id <$> positions_between (-2) 98 example_facts = [1; 2; 3; 4; 5].
Proof. eexists _, _. split; [reflexivity|]. split; reflexivity. Qed.

Example listPage_negative_limit_page :
  ∃ page p,
    listPage example_facts (Some "-1") (Some "0") = json (Page page p)
    ∧ id <$> page = [1; 2; 3; 4]
    ∧ limit p = Num (-1) ∧ hasMore p = true
    ∧ positions_between 0 (-1) example_facts = [].
Proof. eexists _, _. split; [reflexivity|]. repeat split. Qed.

(** C2, as amended. The listing never fails: it answers 200 with a page
    whatever the parameters are. The page is empty when the offset is at
    or past the end of the corpus, and when it is not a number. *)
Theorem listPage_never_fails facts limit_q offset_q :
  ∃ page p,
    listPage facts limit_q offset_q = json (Page page p)
    ∧ page `sublist_of` facts
    ∧ (∀ o, parseInt (nullish offset_q "0") = Num o →
            Z.of_nat (length facts) ≤ o → page = [])
    ∧ (parseInt (nullish offset_q "0") = NaN → page = []).
Proof.
  eexists _, _. split; [reflexivity|]. split; [apply slice_sublist|]. split.
  - intros o -> Ho. by apply slice_past_end.
  - intros ->. simpl. apply slice_NaN.
Qed.

Lemma listPage_never_fails_witness :
  ∃ p, listPage example_facts None (Some "5") = json (Page [] p).
Proof.
  destruct (listPage_never_fails example_facts None (Some "5"))
    as (page & p & Heq & _ & Hpast & _).
  exists p. rewrite Heq.
  rewrite (Hpast 5); [reflexivity | reflexivity | simpl; lia].
Defined.

(** C2, the counterexample: offset -10 addresses no position of the five
    facts, from either end, and the page is the whole corpus. *)
Lemma listPage_offset_before_start :
  ¬ listPage_empty_out_of_range example_facts None (Some "-10").
Proof.
  intros H. destruct (H (-10) eq_refl) as [p Hp]; [lia|].
  vm_compute in Hp. discriminate Hp.
Qed.

Example listPage_offset_before_start_page :
  ∃ page p,
    listPage example_facts None (Some "-10") = json (Page page p)
    ∧ id <$> page = [1; 2; 3; 4; 5].
Proof. eexists _, _. split; reflexivity. Qed.

(** ** The cache keeps successes and only successes *)

(** C9. A first load that reaches the data builds the corpus and caches
    it. After a load has succeeded, every later load, also after any
    requests served in between, returns that same corpus (so the same ids
    and the same category index) and leaves the process as it is: nothing
    is fetched again. A load can only fail while the cache is unset; it
    then leaves the cache unset, and the next load fetches again. *)
Theorem loadFacts_memoizes_successes_only (network : nat → option (list RawFact)) :
  (∀ n data,
     network n = Some data →
     loadFacts network {| factsCache := None; fetches := n |}
     = (Fulfilled (load data),
        {| factsCache := Some (load data); fetches := S n |}))
  ∧ (∀ p c p',
       loadFacts network p = (Fulfilled c, p') →
       loadFacts network p' = (Fulfilled c, p')
       ∧ handle network GetCategories p' = (Fulfilled (listCategories c), p')
       ∧ ∀ rs,
           loadFacts network (snd (serve network rs p')) = (Fulfilled c, p'))
  ∧ (∀ p p',
       loadFacts network p = (Rejected, p') →
       factsCache p = None
       ∧ p' = {| factsCache := None; fetches := S (fetches p) |}
       ∧ loadFacts network p'
         = match network (S (fetches p)) with
           | Some data =>
               (Fulfilled (load data),
                {| factsCache := Some (load data); fetches := S (S (fetches p)) |})
           | None =>
               (Rejected, {| factsCache := None; fetches := S (S (fetches p)) |})
           end).
Proof.
  split; [|split].
  - intros n data Hn. by rewrite loadFacts_first, Hn.
  - intros p c p' Hload.
    pose proof (loadFacts_fulfilled network p c p' Hload) as Hc.
    destruct p' as [cache n]; simpl in Hc; subst cache.
    split; [apply loadFacts_cached|]. split; [reflexivity|].
    intros rs. rewrite serve_loaded. apply loadFacts_cached.
  - intros [[c|] n] p'.
    + rewrite loadFacts_cached. discriminate.
    + rewrite loadFacts_first. simpl.
      destruct (network n) eqn:Hn; [discriminate|]. intros [= <-].
      split; [done|]. split; [done|]. apply loadFacts_first.
Qed.

Lemma loadFacts_memoizes_successes_only_witness :
  loadFacts down_then_up {| factsCache := None; fetches := 1 |}
  = (Fulfilled example_facts,
     {| factsCache := Some example_facts; fetches := 2 |})
  ∧ loadFacts down_then_up {| factsCache := Some example_facts; fetches := 2 |}
    = (Fulfilled example_facts,
       {| factsCache := Some example_facts; fetches := 2 |})
  ∧ loadFacts down_then_up {| factsCache := None; fetches := 1 |}
    = (Fulfilled example_facts,
       {| factsCache := Some example_facts; fetches := 2 |}).
Proof.
  destruct (loadFacts_memoizes_successes_only down_then_up)
    as (Hfirst & Hlater & Hfailed).
  split; [apply (Hfirst 1%nat example_data); reflexivity|].
  split.
  - apply (Hlater {| factsCache := None; fetches := 1 |}). reflexivity.
  - destruct (Hfailed {| factsCache := None; fetches := 0 |}
                {| factsCache := None; fetches := 1 |}) as (_ & _ & Hnext);
      [reflexivity|]. exact Hnext.
Defined.

(** ** Strings: case folding and search *)

Lemma app_empty_l (t : string) : "" +:+ t = t.
Proof. reflexivity. Qed.

Lemma app_String a (s t : string) : String a s +:+ t = String a (s +:+ t).
Proof. reflexivity. Qed.

Lemma app_empty_r (s : string) : s +:+ "" = s.
Proof. induction s as [|a s IH]; [done|]. by rewrite app_String, IH. Qed.

Lemma app_assoc_string (s t u : string) : (s +:+ t) +:+ u = s +:+ t +:+ u.
Proof. induction s as [|a s IH]; [done|]. by rewrite !app_String, IH. Qed.

Lemma N_of_ascii_inj a b : N_of_ascii a = N_of_ascii b → a = b.
Proof.
  intros H. rewrite <- (ascii_N_embedding a), <- (ascii_N_embedding b).
  by rewrite H.
Qed.

Lemma is_upper_spec c :
  is_upper c = true ↔ (65 ≤ N_of_ascii c ≤ 90)%N.
Proof.
  unfold is_upper. rewrite andb_true_iff, !N.leb_le. done.
Qed.

Lemma code_toLowerCase_char c :
  N_of_ascii (toLowerCase_char c)
  = if is_upper c then (N_of_ascii c + 32)%N else N_of_ascii c.
Proof.
  unfold toLowerCase_char. destruct (is_upper c) eqn:Hup; [|done].
  apply is_upper_spec in Hup. apply N_ascii_embedding. lia.
Qed.

Lemma toLowerCase_char_same a b :
  toLowerCase_char a = toLowerCase_char b ↔ same_letter a b.
Proof.
  unfold same_letter. split.
  - intros H. apply (f_equal N_of_ascii) in H.
    rewrite !code_toLowerCase_char in H.
    destruct (is_upper a) eqn:Ha, (is_upper b) eqn:Hb.
    + left. apply N_of_ascii_inj. lia.
    + right; left. split; [done|lia].
    + right; right. split; [done|lia].
    + left. by apply N_of_ascii_inj.
  - intros [->|[[Ha Hab]|[Hb Hba]]]; [done|..];
      apply N_of_ascii_inj; rewrite !code_toLowerCase_char.
    + rewrite Ha. destruct (is_upper b) eqn:Hb; [|done].
      apply is_upper_spec in Ha, Hb. lia.
    + rewrite Hb. destruct (is_upper a) eqn:Ha; [|done].
      apply is_upper_spec in Ha, Hb. lia.
Qed.

Lemma toLowerCase_same s t :
  toLowerCase s = toLowerCase t ↔ same_ignoring_case s t.
Proof.
  split.
  - revert t. induction s as [|a s IH]; intros [|b t] H; simplify_eq/=.
    + constructor.
    + constructor; [by apply toLowerCase_char_same|by apply IH].
  - induction 1 as [|a b s t Hab _ IH]; [done|]. simpl.
    by rewrite IH, (proj2 (toLowerCase_char_same a b) Hab).
Qed.

Lemma toLowerCase_app s t :
  toLowerCase (s +:+ t) = toLowerCase s +:+ toLowerCase t.
Proof.
  induction s as [|a s IH]; [done|].
  rewrite app_String. simpl. by rewrite IH, app_String.
Qed.

Lemma toLowerCase_eq_app s u v :
  toLowerCase s = u +:+ v →
  ∃ s1 s2, s = s1 +:+ s2 ∧ toLowerCase s1 = u ∧ toLowerCase s2 = v.
Proof.
  revert s. induction u as [|c u IH]; intros s H.
  - exists "", s. by rewrite app_empty_l in *.
  - rewrite app_String in H. destruct s as [|a s]; simplify_eq/=.
    destruct (IH s) as (s1 & s2 & -> & <- & <-); [done|].
    exists (String a s1), s2. by rewrite app_String.
Qed.

Lemma startsWith_spec s t :
  startsWith s t = true ↔ ∃ post, s = t +:+ post.
Proof.
  revert s. induction t as [|b t IH]; intros s.
  - destruct s; simpl; split; eauto.
  - destruct s as [|a s]; simpl.
    + split; [done|]. intros [post Hpost]. by rewrite app_String in Hpost.
    + rewrite andb_true_iff, bool_decide_eq_true, IH. split.
      * intros [-> [post ->]]. exists post. by rewrite app_String.
      * intros [post Hpost]. rewrite app_String in Hpost.
        simplify_eq. eauto.
Qed.

Lemma includes_spec s t :
  includes s t = true ↔ ∃ pre post, s = pre +:+ t +:+ post.
Proof.
  induction s as [|a s IH].
  - cbn [includes]. rewrite orb_false_r, startsWith_spec. split.
    + intros [post ->]. exists "", post. by rewrite app_empty_l.
    + intros ([|c pre] & post & H).
      * rewrite app_empty_l in H. eauto.
      * by rewrite app_String in H.
  - cbn [includes]. rewrite orb_true_iff, startsWith_spec, IH. split.
    + intros [[post ->]|(pre & post & ->)].
      * exists "", post. by rewrite app_empty_l.
      * exists (String a pre), post. by rewrite app_String.
    + intros ([|c pre] & post & H).
      * rewrite app_empty_l in H. left. eauto.
      * rewrite app_String in H. simplify_eq. right. eauto.
Qed.

(** The test of the search handler is occurrence up to the case of
    letters. *)
Lemma includes_toLowerCase t q :
  includes (toLowerCase t) (toLowerCase q) = true ↔ occurs_ignoring_case q t.
Proof.
  rewrite includes_spec. unfold occurs_ignoring_case. split.
  - intros (u & v & H).
    apply toLowerCase_eq_app in H as (pre & rest & -> & _ & H).
    apply toLowerCase_eq_app in H as (mid & post & -> & H & _).
    exists pre, mid, post. split; [done|]. by apply toLowerCase_same.
  - intros (pre & mid & post & -> & H%toLowerCase_same).
    exists (toLowerCase pre), (toLowerCase post).
    by rewrite !toLowerCase_app, H.
Qed.

(** ** JS.filter and JS.find *)

Lemma elem_of_JS_filter {A} (p : A → bool) (l : list A) x :
  x ∈ JS.filter p l ↔ x ∈ l ∧ p x = true.
Proof. unfold JS.filter. rewrite list_elem_of_filter. tauto. Qed.

Lemma JS_filter_sublist {A} (p : A → bool) (l : list A) :
  JS.filter p l `sublist_of` l.
Proof. apply sublist_filter. Qed.

Lemma JS_filter_ext {A} (p q : A → bool) (l : list A) :
  (∀ x, x ∈ l → p x = q x) → JS.filter p l = JS.filter q l.
Proof.
  unfold JS.filter. induction l as [|x l IH]; intros H; [done|].
  rewrite !filter_cons, IH by (intros; apply H; by right).
  rewrite (H x) by left. reflexivity.
Qed.

Lemma JS_filter_fmap {A B} (g : A → B) (p : B → bool) (l : list A) :
  JS.filter p (g <$> l) = g <$> JS.filter (p ∘ g) l.
Proof.
  unfold JS.filter. induction l as [|x l IH]; [done|].
  rewrite fmap_cons, !filter_cons, IH. simpl.
  destruct (decide (p (g x) = true)); done.
Qed.

Lemma JS_find_Some {A} (p : A → bool) (l : list A) x :
  JS.find p l = Some x →
  ∃ i, l !! i = Some x ∧ p x = true ∧ ∀ j y, (j < i)%nat → l !! j = Some y → p y = false.
Proof.
  induction l as [|z l IH]; [done|]. simpl.
  destruct (p z) eqn:Hz.
  - intros [= ->]. exists 0%nat. split; [done|]. split; [done|]. lia.
  - intros (i & Hi & Hx & Hbefore)%IH. exists (S i).
    split; [done|]. split; [done|].
    intros [|j] y Hj; simpl; [by intros [= <-]|].
    apply Hbefore. lia.
Qed.

Lemma JS_find_None {A} (p : A → bool) (l : list A) :
  JS.find p l = None ↔ ∀ x, x ∈ l → p x = false.
Proof.
  induction l as [|z l IH]; simpl.
  - split; [|done]. intros _ x Hx. by apply elem_of_nil in Hx.
  - destruct (p z) eqn:Hz.
    + split; [done|]. intros H. rewrite H in Hz by left. done.
    + rewrite IH. split.
      * intros H x [->|Hx]%elem_of_cons; auto.
      * intros H x Hx. apply H. by right.
Qed.

Lemma JS_filter_exactly_those {A} (p : A → bool) (P : A → Prop) (l : list A) :
  (∀ x, p x = true ↔ P x) → exactly_those P l (JS.filter p l).
Proof.
  intros Hp. unfold JS.filter. induction l as [|x l IH].
  - constructor.
  - rewrite filter_cons. destruct (decide (p x = true)) as [Hx|Hx].
    + apply those_keep; [by apply Hp|done].
    + apply those_skip; [by rewrite <- Hp|done].
Qed.

Lemma exactly_those_elem_of {A} (P : A → Prop) (l r : list A) x :
  exactly_those P l r → x ∈ r ↔ x ∈ l ∧ P x.
Proof.
  induction 1 as [|y l r Hy _ IH|y l r Hy _ IH].
  - split; [by intros ?%elem_of_nil|by intros [?%elem_of_nil _]].
  - rewrite !elem_of_cons, IH.
    split; [intros [->|[??]]; auto | intros [[->|?] ?]; auto].
  - rewrite elem_of_cons, IH.
    split; [intros [??]; auto | intros [[->|?] ?]; [done | auto]].
Qed.

Lemma exactly_those_sublist {A} (P : A → Prop) (l r : list A) :
  exactly_those P l r → r `sublist_of` l.
Proof. induction 1; by constructor. Qed.

Lemma exactly_those_unique {A} (P : A → Prop) (l r1 r2 : list A) :
  exactly_those P l r1 → exactly_those P l r2 → r1 = r2.
Proof.
  intros H1. revert r2.
  induction H1; intros r2 H2; inversion H2; subst; try done; f_equal; auto.
Qed.

(** ** searchText *)

(** C5. The search answers 400 (missing parameter) exactly when [q] is
    absent or empty. For any other [q] it answers with exactly the facts
    whose text contains [q] when the case of letters is ignored, in corpus
    order, their number, and [q] as it was given; the categories play no
    part: filing the facts under other categories selects the same
    facts. *)
Theorem searchText_spec (facts : list Fact) :
  (∀ query,
     searchText facts query = json_status (Failure MissingQ) 400
     ↔ query = None ∨ query = Some "")
  ∧ (∀ q,
       q ≠ "" →
       ∃ results,
         searchText facts (Some q) = json (Matches results (length results) q)
         ∧ exactly_those (λ f, occurs_ignoring_case q (text f)) facts results
         ∧ ∀ g,
             searchText (relabel g <$> facts) (Some q)
             = json (Matches (relabel g <$> results) (length results) q)).
Proof.
  split.
  - intros [[|a q]|]; simpl; split; try done; [by right | by intros [|] | by left].
  - intros [|a q] Hq; [done|]. eexists. split; [reflexivity|]. split.
    + apply JS_filter_exactly_those. intros f. apply includes_toLowerCase.
    + intros g. unfold searchText. cbn [falsy nullish].
      rewrite JS_filter_fmap, length_fmap. reflexivity.
Qed.

Lemma searchText_spec_witness :
  ∃ results,
    searchText example_facts (Some "QUANTUM")
    = json (Matches results (length results) "QUANTUM")
    ∧ exactly_those (λ f, occurs_ignoring_case "QUANTUM" (text f))
        example_facts results.
Proof.
  destruct (searchText_spec example_facts) as [_ H].
  destruct (H "QUANTUM") as (results & Heq & Hthose & _); [discriminate|].
  exists results. split; [exact Heq | exact Hthose].
Defined.

(** C5, the examples: an upper-case query finds the lower-case text, and a
    query that only a category matches finds nothing. *)
Example searchText_QUANTUM :
  ∃ results,
    searchText example_facts (Some "QUANTUM") = json (Matches results 1 "QUANTUM")
    ∧ id <$> results = [2].
Proof. eexists. split; reflexivity. Qed.

Example searchText_category_name :
  searchText example_facts (Some "chemistry") = json (Matches [] 0 "chemistry").
Proof. reflexivity. Qed.

Example searchText_missing :
  searchText example_facts None = json_status (Failure MissingQ) 400
  ∧ searchText example_facts (Some "") = json_status (Failure MissingQ) 400.
Proof. split; reflexivity. Qed.

(** ** byCategory *)

(** C6. The facts returned for a name are exactly those whose category is
    the name up to the case of letters, in corpus order, with their number
    and the name as it was given; the answer is 404 exactly when there is
    no such fact. *)
Theorem byCategory_spec (facts : list Fact) (name : string) :
  ∃ matched,
    exactly_those (λ f, same_ignoring_case (category f) name) facts matched
    ∧ (matched = [] →
       byCategory facts name
       = json_status (Failure (CategoryNotFound (toLowerCase name))) 404)
    ∧ (matched ≠ [] →
       byCategory facts name = json (InCategory matched name (length matched)))
    ∧ (status (byCategory facts name) = 404 ↔ matched = []).
Proof.
  eexists. split.
  { apply (JS_filter_exactly_those
             (λ f, bool_decide (toLowerCase (category f) = toLowerCase name))).
    intros f. rewrite bool_decide_eq_true. apply toLowerCase_same. }
  unfold byCategory.
  destruct (JS.filter _ facts) as [|f matched] eqn:Hm; simpl.
  - split; [done|]. split; done.
  - split; [done|]. split; [done|]. split; discriminate.
Qed.

Lemma byCategory_spec_witness :
  ∃ matched,
    byCategory example_facts "PHYSICS" = json (InCategory matched "PHYSICS" 3)
    ∧ id <$> matched = [1; 2; 4].
Proof.
  destruct (byCategory_spec example_facts "PHYSICS")
    as (matched & Hthose & _ & Hsome & _).
  assert (matched = JS.filter
            (λ f, bool_decide (toLowerCase (category f) = toLowerCase "PHYSICS"))
            example_facts) as ->.
  { eapply exactly_those_unique; [exact Hthose|].
    apply JS_filter_exactly_those. intros f.
    rewrite bool_decide_eq_true. apply toLowerCase_same. }
  eexists. split; [apply Hsome; discriminate | reflexivity].
Defined.

(** C6, the examples: PHYSICS selects the facts filed under Physics and
    under physics; an unknown name is not found. *)
Example byCategory_PHYSICS :
  ∃ matched,
    byCategory example_facts "PHYSICS" = json (InCategory matched "PHYSICS" 3)
    ∧ id <$> matched = [1; 2; 4]
    ∧ category <$> matched = ["Physics"; "Physics"; "physics"].
Proof. eexists. split; [reflexivity|]. split; reflexivity. Qed.

Example byCategory_unknown :
  byCategory example_facts "Geology"
  = json_status (Failure (CategoryNotFound "geology")) 404.
Proof. reflexivity. Qed.

(** ** Sets in insertion order, and sorting *)

Section spread_Set.

Context `{EqDecision A}.

Lemma elem_of_Set_add (acc : list A) (y x : A) :
  x ∈ Set_add acc y ↔ x ∈ acc ∨ x = y.
Proof.
  unfold Set_add. case_decide as Hy.
  - split; [by left|]. by intros [?| ->].
  - rewrite elem_of_app, list_elem_of_singleton. done.
Qed.

Lemma NoDup_Set_add (acc : list A) (y : A) : NoDup acc → NoDup (Set_add acc y).
Proof.
  intros Hacc. unfold Set_add. case_decide as Hy; [done|].
  apply NoDup_app. split; [done|]. split; [|apply NoDup_singleton].
  intros x Hx ->%list_elem_of_singleton. done.
Qed.

Lemma elem_of_foldl_Set_add (l acc : list A) (x : A) :
  x ∈ foldl Set_add acc l ↔ x ∈ acc ∨ x ∈ l.
Proof.
  revert acc. induction l as [|y l IH]; intros acc; simpl.
  - split; [by left|]. by intros [?|?%elem_of_nil].
  - rewrite IH, elem_of_Set_add, elem_of_cons. tauto.
Qed.

Lemma NoDup_foldl_Set_add (l acc : list A) :
  NoDup acc → NoDup (foldl Set_add acc l).
Proof.
  revert acc. induction l as [|y l IH]; intros acc Hacc; simpl; [done|].
  by apply IH, NoDup_Set_add.
Qed.

Lemma elem_of_spread_Set (l : list A) (x : A) : x ∈ spread_Set l ↔ x ∈ l.
Proof.
  unfold spread_Set. rewrite elem_of_foldl_Set_add.
  split; [by intros [?%elem_of_nil|?]|by right].
Qed.

Lemma NoDup_spread_Set (l : list A) : NoDup (spread_Set l).
Proof. apply NoDup_foldl_Set_add, NoDup_nil_2. Qed.

End spread_Set.

Lemma elem_of_sort l x : x ∈ sort l ↔ x ∈ l.
Proof. unfold sort. by rewrite merge_sort_Permutation. Qed.

Lemma NoDup_sort l : NoDup l → NoDup (sort l).
Proof. unfold sort. by rewrite merge_sort_Permutation. Qed.

Lemma length_sort l : length (sort l) = length l.
Proof. unfold sort. by rewrite merge_sort_Permutation. Qed.

Lemma StronglySorted_sort l : StronglySorted String.le (sort l).
Proof. apply (StronglySorted_merge_sort _). Qed.

(** The order of [sort] is the lexicographic order of the character
    codes. *)
Lemma String_le_empty t : String.le "" t.
Proof. by destruct t. Qed.

Lemma String_le_String a s b t :
  String.le (String a s) (String b t)
  ↔ (N_of_ascii a < N_of_ascii b)%N ∨ (a = b ∧ String.le s t).
Proof.
  unfold String.le, String.leb. simpl. unfold Ascii.compare.
  destruct (N.compare_spec (N_of_ascii a) (N_of_ascii b)) as [Heq|Hlt|Hgt].
  - apply N_of_ascii_inj in Heq as ->. split; [by right|].
    intros [?|[_ ?]]; [lia|done].
  - split; [by left|done].
  - split; [done|]. intros [?|[-> _]]; lia.
Qed.

Lemma String_le_String_empty a s : ¬ String.le (String a s) "".
Proof. intros []. Qed.

(** ** listCategories *)

(** C7. The category index holds exactly the category values that occur
    in the corpus, each once (two values that differ in case are two
    values), in ascending lexicographic order, and the handler returns it
    with its length. On the example corpus it is Biology, Chemistry,
    Physics, physics. *)
Theorem listCategories_spec :
  (∀ facts : list Fact,
     listCategories facts
     = json (Names (categories facts) (length (categories facts)))
     ∧ (∀ c, c ∈ categories facts ↔ ∃ f, f ∈ facts ∧ category f = c)
     ∧ NoDup (categories facts)
     ∧ StronglySorted String.le (categories facts))
  ∧ listCategories example_facts
    = json (Names ["Biology"; "Chemistry"; "Physics"; "physics"] 4).
Proof.
  split; [|reflexivity]. intros facts.
  split; [reflexivity|]. unfold categories. split; [|split].
  - intros c. rewrite elem_of_sort, elem_of_spread_Set, list_elem_of_fmap.
    split; intros (f & ? & ?); eauto.
  - apply NoDup_sort, NoDup_spread_Set.
  - apply StronglySorted_sort.
Qed.

(** ** parseInt *)

Lemma is_decimal_digit_spec c :
  is_decimal_digit c = true ↔ (48 ≤ N_of_ascii c ≤ 57)%N.
Proof. unfold is_decimal_digit. by rewrite andb_true_iff, !N.leb_le. Qed.

Lemma digit_value_decimal c :
  is_decimal_digit c = true →
  digit_value c = Some (Z.of_N (N_of_ascii c) - 48)
  ∧ 0 ≤ Z.of_N (N_of_ascii c) - 48 < 10.
Proof.
  intros H%is_decimal_digit_spec. unfold digit_value. cbv zeta.
  rewrite (proj2 (Z.leb_le 48 _)), (proj2 (Z.leb_le _ 57)) by lia.
  split; [done|lia].
Qed.

(** A character that is not a decimal digit is no digit of radix 10: the
    letters count from ten. *)
Ltac letter_digit :=
  repeat case_match; intros [= <-];
  repeat match goal with
         | H : _ && _ = true |- _ => apply andb_true_iff in H as [??]
         | H : (_ <=? _) = true |- _ => apply Z.leb_le in H
         end;
  lia.

Lemma digit_value_not_decimal c d :
  is_decimal_digit c = false → digit_value c = Some d → 10 ≤ d.
Proof.
  unfold is_decimal_digit, digit_value. cbv zeta. intros Hc.
  destruct (48 <=? Z.of_N (N_of_ascii c)) eqn:H1,
           (Z.of_N (N_of_ascii c) <=? 57) eqn:H2; simpl;
    [|letter_digit..].
  apply Z.leb_le in H1, H2.
  apply andb_false_iff in Hc as [Hc|Hc]; apply N.leb_gt in Hc; lia.
Qed.

(** Reading stops at the first character that is not a digit. *)
Lemma parse_digits_stop t acc :
  begins_with is_decimal_digit t = false → parse_digits 10 t acc = acc.
Proof.
  destruct t as [|c t]; [done|]. simpl. intros Hc.
  destruct (digit_value c) as [d|] eqn:Hd; [|done].
  apply (digit_value_not_decimal c d Hc) in Hd.
  by rewrite (proj2 (Z.ltb_ge d 10)).
Qed.

Lemma parse_digits_decimal d t a :
  all_decimal d = true →
  begins_with is_decimal_digit t = false →
  parse_digits 10 (d +:+ t) (Some a) = Some (decimal_value a d).
Proof.
  intros Hd Ht. revert a. induction d as [|c d IH]; intros a.
  - rewrite app_empty_l. by apply parse_digits_stop.
  - simpl in Hd. apply andb_true_iff in Hd as [Hc Hd].
    rewrite app_String. simpl.
    destruct (digit_value_decimal c Hc) as [-> Hrange].
    rewrite (proj2 (Z.ltb_lt _ 10)) by lia. by apply IH.
Qed.

Lemma parse_digits_decimal_first d t :
  d ≠ "" →
  all_decimal d = true →
  begins_with is_decimal_digit t = false →
  parse_digits 10 (d +:+ t) None = Some (decimal_value 0 d).
Proof.
  intros Hne Hd Ht. destruct d as [|c d]; [done|].
  simpl in Hd. apply andb_true_iff in Hd as [Hc Hd].
  rewrite app_String. simpl.
  destruct (digit_value_decimal c Hc) as [-> Hrange].
  rewrite (proj2 (Z.ltb_lt _ 10)) by lia. by apply parse_digits_decimal.
Qed.

Lemma trim_start_white_space ws s :
  all_white_space ws = true → trim_start (ws +:+ s) = trim_start s.
Proof.
  induction ws as [|c ws IH]; [done|]. cbn [all_white_space].
  intros [Hc Hws]%andb_true_iff. rewrite app_String.
  cbn [trim_start]. rewrite Hc. auto.
Qed.

Lemma trim_start_id s :
  begins_with is_white_space s = false → trim_start s = s.
Proof. destruct s as [|c s]; [done|]. simpl. by intros ->. Qed.

Lemma decimal_digit_facts c :
  is_decimal_digit c = true →
  is_white_space c = false ∧ c ≠ "-"%char ∧ c ≠ "+"%char
  ∧ c ≠ "x"%char ∧ c ≠ "X"%char.
Proof.
  intros Hc. split.
  - apply is_decimal_digit_spec in Hc. unfold is_white_space. cbv zeta.
    repeat (apply orb_false_iff; split); apply N.eqb_neq; lia.
  - repeat split; intros ->; discriminate Hc.
Qed.

(** A run of decimal digits that is not the start of [0x] or [0X] is read
    in radix 10. *)
Lemma strip_prefix_decimal d t :
  d ≠ "" →
  all_decimal d = true →
  ¬ (d = "0" ∧ begins_with is_x t = true) →
  strip_prefix (d +:+ t) = (10, d +:+ t).
Proof.
  intros Hne Hd Hx. destruct d as [|c d]; [done|].
  rewrite app_String. unfold strip_prefix.
  destruct (d +:+ t) as [|x s] eqn:Hrest; [done|].
  destruct (bool_decide (c = "0"%char)) eqn:Hc; [|done].
  apply bool_decide_eq_true in Hc as ->. simpl.
  destruct (bool_decide (x = "x"%char) || bool_decide (x = "X"%char)) eqn:Hxx;
    [|done].
  exfalso. destruct d as [|c' d].
  - rewrite app_empty_l in Hrest. subst t. apply Hx. done.
  - rewrite app_String in Hrest. simplify_eq. simpl in Hd.
    apply andb_true_iff in Hd as [Hc' _].
    apply decimal_digit_facts in Hc' as (_ & _ & _ & H1 & H2).
    apply orb_true_iff in Hxx as [?%bool_decide_eq_true|?%bool_decide_eq_true];
      done.
Qed.

Lemma strip_sign_none s :
  begins_with (λ c, bool_decide (c = "-"%char) || bool_decide (c = "+"%char)) s
  = false →
  strip_sign s = (1, s).
Proof.
  destruct s as [|c s]; [done|]. simpl.
  intros [-> ->]%orb_false_iff. done.
Qed.

(** What [parseInt] makes of white space, an optional sign, a run of
    decimal digits, and anything after it that does not go on with a
    digit, unless the digits and what follows start with [0x] or [0X]. *)
Lemma parseInt_leading_integer ws sg d t :
  all_white_space ws = true →
  sg = "" ∨ sg = "-" ∨ sg = "+" →
  d ≠ "" →
  all_decimal d = true →
  begins_with is_decimal_digit t = false →
  ¬ (d = "0" ∧ begins_with is_x t = true) →
  parseInt (ws +:+ sg +:+ d +:+ t) = Num (sign_value sg * decimal_value 0 d).
Proof.
  intros Hws Hsg Hne Hd Ht Hx. unfold parseInt.
  rewrite trim_start_white_space by done.
  assert (∃ c d', d = String c d' ∧ is_decimal_digit c = true)
    as (c & d' & Hcd & Hc).
  { destruct d as [|c d']; [done|]. simpl in Hd.
    apply andb_true_iff in Hd as [? _]. eauto. }
  destruct (decimal_digit_facts c Hc) as (Hcw & Hc1 & Hc2 & _).
  assert (strip_sign (trim_start (sg +:+ d +:+ t))
          = (sign_value sg, d +:+ t)) as ->.
  { destruct Hsg as [->|[->| ->]].
    - rewrite app_empty_l, trim_start_id by (by rewrite Hcd, app_String).
      rewrite strip_sign_none; [done|]. rewrite Hcd, app_String. simpl.
      by rewrite !bool_decide_eq_false_2.
    - reflexivity.
    - reflexivity. }
  rewrite strip_prefix_decimal by done.
  by rewrite parse_digits_decimal_first.
Qed.

(** ** byId *)

Lemma byId_parseInt facts s :
  byId facts s
  = match parseInt s with
    | NaN => json_status (Failure InvalidId) 400
    | Num k =>
        match JS.find (λ f, bool_decide (id f = k)) facts with
        | None => json_status (Failure (FactNotFound k)) 404
        | Some fact => json (Single fact)
        end
    end.
Proof. unfold byId. by destruct (parseInt s). Qed.

Lemma byId_same_number facts s s' :
  parseInt s = parseInt s' → byId facts s = byId facts s'.
Proof. intros H. by rewrite !byId_parseInt, H. Qed.

Lemma byId_invalid_iff facts s :
  byId facts s = json_status (Failure InvalidId) 400 ↔ parseInt s = NaN.
Proof.
  rewrite byId_parseInt. destruct (parseInt s) as [|k]; [done|].
  destruct (JS.find _ facts); split; discriminate.
Qed.

Lemma same_id_same_fact (facts : list Fact) f g :
  NoDup (id <$> facts) → f ∈ facts → g ∈ facts → id f = id g → f = g.
Proof.
  intros Hnd [i Hi]%list_elem_of_lookup [j Hj]%list_elem_of_lookup Hid.
  assert (i = j) as ->; [|congruence].
  apply (NoDup_lookup _ i j (id f) Hnd); rewrite list_lookup_fmap.
  - by rewrite Hi.
  - by rewrite Hj, Hid.
Qed.

Lemma byId_not_found facts s k :
  parseInt s = Num k →
  (∀ f, f ∈ facts → id f ≠ k) →
  byId facts s = json_status (Failure (FactNotFound k)) 404.
Proof.
  intros Hs Hnone. rewrite byId_parseInt, Hs.
  rewrite (proj2 (JS_find_None _ facts)); [done|].
  intros f Hf. apply bool_decide_eq_false. auto.
Qed.

Lemma byId_found facts s k :
  parseInt s = Num k →
  (∃ f, f ∈ facts ∧ id f = k) →
  ∃ f,
    byId facts s = json (Single f)
    ∧ f ∈ facts ∧ id f = k
    ∧ (NoDup (id <$> facts) → ∀ g, g ∈ facts → id g = k → g = f).
Proof.
  intros Hs (f0 & Hf0 & Hk). rewrite byId_parseInt, Hs.
  destruct (JS.find _ facts) as [f|] eqn:Hfind.
  - apply JS_find_Some in Hfind as (i & Hi & Hid%bool_decide_eq_true & _).
    apply list_elem_of_lookup_2 in Hi.
    exists f. split; [done|]. split; [done|]. split; [done|].
    intros Hnd g Hg Hgk. apply (same_id_same_fact facts); congruence.
  - exfalso. eapply JS_find_None in Hfind; [|exact Hf0].
    apply bool_decide_eq_false in Hfind. done.
Qed.

(** C8. An id that [parseInt] cannot read is an invalid id (400); an id
    that reads as [k] while no fact has the id [k] is not found (404);
    otherwise the answer is a fact of the corpus whose id is [k], the only
    one when ids are not repeated, as in a loaded corpus. *)
Theorem byId_spec (facts : list Fact) (id_p : string) :
  (parseInt id_p = NaN →
   byId facts id_p = json_status (Failure InvalidId) 400)
  ∧ (∀ k,
       parseInt id_p = Num k →
       (∀ f, f ∈ facts → id f ≠ k) →
       byId facts id_p = json_status (Failure (FactNotFound k)) 404)
  ∧ (∀ k,
       parseInt id_p = Num k →
       (∃ f, f ∈ facts ∧ id f = k) →
       ∃ f,
         byId facts id_p = json (Single f)
         ∧ f ∈ facts ∧ id f = k
         ∧ (NoDup (id <$> facts) → ∀ g, g ∈ facts → id g = k → g = f)).
Proof.
  split; [|split].
  - intros H. by rewrite byId_parseInt, H.
  - intros k. apply byId_not_found.
  - intros k. apply byId_found.
Qed.

Lemma byId_spec_witness :
  byId example_facts "x" = json_status (Failure InvalidId) 400
  ∧ byId example_facts "6" = json_status (Failure (FactNotFound 6)) 404
  ∧ ∃ f, byId example_facts "1" = json (Single f)
         ∧ f ∈ example_facts ∧ id f = 1.
Proof.
  split; [|split].
  - apply (byId_spec example_facts "x"). reflexivity.
  - apply (proj1 (proj2 (byId_spec example_facts "6")) 6); [reflexivity|].
    intros f Hf%id_bounds_load. simpl in Hf. lia.
  - destruct (proj2 (proj2 (byId_spec example_facts "1")) 1)
      as (f & Heq & Hf & Hid & _).
    + reflexivity.
    + exists (with_id 0 (raw "Light is both a wave and a particle" "Physics")).
      split; [|reflexivity]. apply elem_of_load.
      by exists 0%nat, (raw "Light is both a wave and a particle" "Physics").
    + exists f. auto.
Defined.

(** C8, the examples: the first fact, an id past the end, and an id that
    is no number. *)
Example byId_examples :
  byId example_facts "1"
  = json (Single (with_id 0 (raw "Light is both a wave and a particle" "Physics")))
  ∧ head example_facts
    = Some (with_id 0 (raw "Light is both a wave and a particle" "Physics"))
  ∧ byId example_facts "6" = json_status (Failure (FactNotFound 6)) 404
  ∧ byId example_facts "x" = json_status (Failure InvalidId) 400.
Proof. repeat split. Qed.

(** In a loaded corpus the fact with id [k] is the entry at position
    [k - 1]. *)
Lemma byId_load factsData s k :
  parseInt s = Num k →
  byId (load factsData) s
  = match decide (1 ≤ k), factsData !! Z.to_nat (k - 1) with
    | left _, Some r => json (Single (with_id (Z.to_nat (k - 1)) r))
    | _, _ => json_status (Failure (FactNotFound k)) 404
    end.
Proof.
  intros Hs.
  destruct (decide (1 ≤ k)) as [Hk|Hk];
    [destruct (factsData !! Z.to_nat (k - 1)) as [r|] eqn:Hr|].
  - destruct (byId_found (load factsData) s k Hs) as (f & -> & Hf & Hid & Huniq).
    { exists (with_id (Z.to_nat (k - 1)) r). split; [|simpl; lia].
      apply elem_of_load. eauto. }
    do 2 f_equal. symmetry. apply Huniq; [apply NoDup_ids_load| |simpl; lia].
    apply elem_of_load. eauto.
  - apply byId_not_found; [done|]. intros f Hf%id_bounds_load.
    apply lookup_ge_None in Hr. lia.
  - apply byId_not_found; [done|]. intros f Hf%id_bounds_load. lia.
Qed.

(** C10, as amended. After optional white space and an optional sign, a
    run of decimal digits is read as a decimal number [k], and what
    follows it is ignored, provided that it does not go on with a digit
    and that the digits and what follows do not start with [0x] or [0X]:
    the id is then looked up as [k], like the id without what follows,
    and is not an invalid id. An id is invalid exactly when [parseInt]
    reads no number from it. *)
Theorem byId_leading_integer (facts : list Fact) (ws sg d t : string) :
  all_white_space ws = true →
  sg = "" ∨ sg = "-" ∨ sg = "+" →
  d ≠ "" →
  all_decimal d = true →
  begins_with is_decimal_digit t = false →
  ¬ (d = "0" ∧ begins_with is_x t = true) →
  parseInt (ws +:+ sg +:+ d +:+ t) = Num (sign_value sg * decimal_value 0 d)
  ∧ byId facts (ws +:+ sg +:+ d +:+ t) = byId facts (ws +:+ sg +:+ d)
  ∧ byId facts (ws +:+ sg +:+ d +:+ t) ≠ json_status (Failure InvalidId) 400
  ∧ ∀ s, byId facts s = json_status (Failure InvalidId) 400 ↔ parseInt s = NaN.
Proof.
  intros Hws Hsg Hne Hd Ht Hx.
  pose proof (parseInt_leading_integer ws sg d t Hws Hsg Hne Hd Ht Hx) as Hp.
  pose proof (parseInt_leading_integer ws sg d "" Hws Hsg Hne Hd eq_refl) as Hp0.
  rewrite app_empty_r in Hp0.
  split; [done|]. split; [|split].
  - apply byId_same_number. rewrite Hp, Hp0; [done|].
    intros [_ ?]. done.
  - rewrite byId_invalid_iff, Hp. done.
  - apply byId_invalid_iff.
Qed.

Lemma byId_leading_integer_witness :
  byId example_facts "3abc" = byId example_facts "3"
  ∧ byId example_facts " -3.7" = byId example_facts " -3".
Proof.
  split.
  - apply (byId_leading_integer example_facts "" "" "3" "abc");
      [reflexivity | by left | discriminate | reflexivity | reflexivity |].
    intros [? _]. discriminate.
  - apply (byId_leading_integer example_facts " " "-" "3" ".7");
      [reflexivity | by right; left | discriminate | reflexivity | reflexivity |].
    intros [? _]. discriminate.
Defined.

(** C10, the counterexample: [0x] begins with the decimal integer 0, and
    it is an invalid id, because [parseInt] takes [0x] for the start of a
    hexadecimal number and finds no digit after it. *)
Lemma byId_0x_invalid : ¬ byId_ignores_trailing example_facts "0" "x".
Proof.
  intros H. destruct (H 0 eq_refl) as [Hvalid _]. by apply Hvalid.
Qed.

(** With hexadecimal digits after it, the id is looked up in radix 16. *)
Example byId_hexadecimal :
  byId example_facts "0x3" = byId example_facts "3"
  ∧ byId example_facts "0" = json_status (Failure (FactNotFound 0)) 404
  ∧ byId example_facts "0x1F" = json_status (Failure (FactNotFound 31)) 404.
Proof. repeat split. Qed.

(** ** randomSample *)

Section sampling.

Variable facts : list Fact.

Lemma Set_add_fresh (seen : list nat) idx :
  idx ∉ seen → Set_add seen idx = seen ++ [idx].
Proof. intros H. unfold Set_add. by rewrite decide_False. Qed.

Lemma Set_add_seen (seen : list nat) idx :
  idx ∈ seen → Set_add seen idx = seen.
Proof. intros H. unfold Set_add. by rewrite decide_True. Qed.

(** The set only grows at its end. *)
Lemma foldl_Set_add_prefix (draws seen : list nat) :
  ∃ more, foldl Set_add seen draws = seen ++ more.
Proof.
  revert seen. induction draws as [|idx draws IH]; intros seen; simpl.
  - exists []. by rewrite app_nil_r.
  - destruct (IH (Set_add seen idx)) as [more ->]. unfold Set_add.
    case_decide; [by eauto|]. rewrite <- app_assoc. eauto.
Qed.

Lemma take_foldl_Set_add (draws seen : list nat) :
  take (length seen) (foldl Set_add seen draws) = seen.
Proof.
  destruct (foldl_Set_add_prefix draws seen) as [more ->].
  apply take_app_length.
Qed.

Lemma length_foldl_Set_add (draws seen : list nat) :
  (length seen ≤ length (foldl Set_add seen draws))%nat.
Proof.
  destruct (foldl_Set_add_prefix draws seen) as [more ->].
  rewrite length_app. lia.
Qed.

(** The loop goes on while it has fewer than [sample_size] facts. *)
Lemma loop_condition count (result : list (option Fact)) :
  lt (Num (Z.of_nat (length result))) count
  && bool_decide (length result < length facts)%nat
  = bool_decide (length result < sample_size count (length facts))%nat.
Proof.
  destruct count as [|c]; cbn [lt sample_size andb].
  - symmetry. apply bool_decide_eq_false. lia.
  - destruct (decide (length result < Z.to_nat (Z.min c (Z.of_nat (length facts)))))%nat.
    + rewrite !bool_decide_eq_true_2 by lia. done.
    + rewrite (bool_decide_eq_false_2 (_ < Z.to_nat _)%nat) by done.
      apply andb_false_iff.
      destruct (decide (Z.of_nat (length result) < c));
        [right|left]; apply bool_decide_eq_false; lia.
Qed.

(** The invariant of the loop: [indices] is the set of the indices drawn
    so far and [result] holds the facts at these indices, in the order
    of their first draw. The loop ends when [sample_size] distinct indices
    were drawn, with the facts at the first [sample_size] of them. *)
Lemma sample_loop_spec count (draws seen : list nat) :
  (length seen ≤ sample_size count (length facts))%nat →
  sample_loop facts count draws (list_to_set seen) ((facts !!.) <$> seen)
  = if decide (sample_size count (length facts)
               ≤ length (foldl Set_add seen draws))%nat
    then Some ((facts !!.) <$>
                 take (sample_size count (length facts)) (foldl Set_add seen draws))
    else None.
Proof.
  revert seen. induction draws as [|idx draws IH]; intros seen Hlen.
  - cbn [sample_loop foldl]. rewrite loop_condition, length_fmap.
    case_bool_decide; case_decide; try lia; [done|].
    rewrite take_ge by lia. done.
  - cbn [sample_loop foldl]. rewrite loop_condition, length_fmap.
    case_bool_decide as Hmore.
    + destruct (decide (idx ∈ (list_to_set seen : gset nat))) as [Hin|Hin];
        rewrite elem_of_list_to_set in Hin.
      * rewrite Set_add_seen by done. by apply IH.
      * rewrite Set_add_fresh by done.
        rewrite <- (IH (seen ++ [idx])) by (rewrite length_app; simpl; lia).
        rewrite fmap_app, list_to_set_app_L, list_to_set_singleton_L.
        by rewrite (comm_L (∪) (list_to_set seen)).
    + assert (sample_size count (length facts) = length seen) as Heq by lia.
      pose proof (length_foldl_Set_add draws (Set_add seen idx)) as Hge.
      pose proof (length_foldl_Set_add [idx] seen) as Hge'. simpl in Hge'.
      rewrite decide_True by lia. rewrite Heq. f_equal. f_equal.
      symmetry. apply (take_foldl_Set_add (idx :: draws) seen).
Qed.

Lemma sample_loop_start count (draws : list nat) :
  sample_loop facts count draws ∅ []
  = if decide (sample_size count (length facts) ≤ length (spread_Set draws))%nat
    then Some ((facts !!.) <$>
                 take (sample_size count (length facts)) (spread_Set draws))
    else None.
Proof. apply (sample_loop_spec count draws []). simpl. lia. Qed.

(** The facts at indices that are in range. *)
Lemma lookups_in_range (idxs : list nat) :
  Forall (λ i, i < length facts)%nat idxs →
  (facts !!.) <$> idxs = Some <$> omap (facts !!.) idxs.
Proof.
  induction 1 as [|i idxs Hi _ IH]; [done|].
  apply lookup_lt_is_Some_2 in Hi as [f Hf].
  rewrite fmap_cons. simpl. rewrite Hf. simpl. by rewrite IH.
Qed.

Lemma length_omap_in_range (idxs : list nat) :
  Forall (λ i, i < length facts)%nat idxs →
  length (omap (facts !!.) idxs) = length idxs.
Proof.
  intros H. apply lookups_in_range in H.
  apply (f_equal length) in H. by rewrite !length_fmap in H.
Qed.

Lemma NoDup_omap_lookup (idxs : list nat) :
  NoDup facts → NoDup idxs → NoDup (omap (facts !!.) idxs).
Proof.
  intros Hfacts. induction 1 as [|i idxs Hi _ IH]; simpl; [constructor|].
  destruct (facts !! i) as [f|] eqn:Hf; [|done].
  constructor; [|done].
  intros (j & Hj & Hfj)%list_elem_of_omap.
  assert (i = j) as -> by apply (NoDup_lookup facts i j f Hfacts Hf Hfj).
  done.
Qed.

(** As many distinct indices as there are facts are all the indices. *)
Lemma all_indices (idxs : list nat) :
  NoDup idxs →
  Forall (λ i, i < length facts)%nat idxs →
  length idxs = length facts →
  idxs ≡ₚ seq 0 (length facts).
Proof.
  intros Hnd Hrange Hlen. apply submseteq_length_Permutation.
  - apply NoDup_submseteq; [done|]. intros i Hi. apply elem_of_seq.
    rewrite Forall_forall in Hrange. apply Hrange in Hi. lia.
  - rewrite length_seq. lia.
Qed.

Lemma omap_of_fmap_Some {A B} (f : A → option B) (xs : list A) (ys : list B) :
  f <$> xs = Some <$> ys → omap f xs = ys.
Proof.
  revert ys. induction xs as [|x xs IH]; intros [|y ys] H; try done.
  rewrite !fmap_cons in H. injection H as Hx Hxs.
  simpl. rewrite Hx. simpl. f_equal. auto.
Qed.

Lemma omap_lookup_seq : omap (facts !!.) (seq 0 (length facts)) = facts.
Proof.
  apply omap_of_fmap_Some, list_eq. intros i.
  rewrite !list_lookup_fmap.
  destruct (facts !! i) as [f|] eqn:Hf.
  - rewrite lookup_seq_lt by (by eapply lookup_lt_Some). simpl. by rewrite Hf.
  - rewrite lookup_seq_ge by (by apply lookup_ge_None). done.
Qed.

(** When the loop collects as many facts as the corpus has, it collects
    each fact once. *)
Lemma whole_corpus (idxs : list nat) :
  NoDup idxs →
  Forall (λ i, i < length facts)%nat idxs →
  length idxs = length facts →
  omap (facts !!.) idxs ≡ₚ facts.
Proof.
  intros Hnd Hrange Hlen.
  rewrite (all_indices idxs Hnd Hrange Hlen). by rewrite omap_lookup_seq.
Qed.

End sampling.

Lemma Forall_spread_Set (P : nat → Prop) (draws : list nat) :
  Forall P draws → Forall P (spread_Set draws).
Proof.
  rewrite !Forall_forall. intros H i Hi. apply H.
  by apply elem_of_spread_Set.
Qed.

(** Without enough distinct draws the loop is still running. *)
Lemma randomSample_unfinished facts count_q draws :
  (length (spread_Set draws)
   < sample_size (Math_min (parseInt (nullish count_q "1")) (Num 100))
       (length facts))%nat →
  randomSample facts count_q draws = None.
Proof.
  intros Hfew. unfold randomSample. rewrite sample_loop_start.
  rewrite decide_False by lia. done.
Qed.

(** C4, as amended. For a count that is a number and not negative, and
    draws that are indices of the corpus: as soon as the draws hold
    [min(min(count, 100), N)] distinct indices the sample is returned; it
    holds that many facts, all distinct, which are the facts at the first
    distinct indices drawn, in the order drawn; it is the whole corpus,
    each fact once, when [min(count, 100)] is at least [N]. The answer is
    the array of these facts, unless the count is 1: it is then the first
    of them, a single fact when the corpus is not empty. *)
Theorem randomSample_spec
    (factsData : list RawFact) (count_q : option string)
    (draws : list nat) (c : Z) :
  parseInt (nullish count_q "1") = Num c →
  0 ≤ c →
  Forall (λ i, i < length factsData)%nat draws →
  (Z.to_nat (Z.min (Z.min c 100) (Z.of_nat (length factsData)))
   ≤ length (spread_Set draws))%nat →
  ∃ picked : list Fact,
    randomSample (load factsData) count_q draws
    = Some (json (if decide (c = 1) then One (head picked)
                  else Many (Some <$> picked)))
    ∧ Z.of_nat (length picked)
      = Z.min (Z.min c 100) (Z.of_nat (length factsData))
    ∧ NoDup picked
    ∧ Some <$> picked
      = (load factsData !!.) <$> take (length picked) (spread_Set draws)
    ∧ (Z.of_nat (length factsData) ≤ Z.min c 100 → picked ≡ₚ load factsData)
    ∧ (c = 1 → factsData ≠ [] → ∃ f, picked = [f]).
Proof.
  intros Hc Hnn Hrange Henough.
  rewrite <- (length_load factsData) in *.
  set (facts := load factsData) in *.
  set (size := Z.to_nat (Z.min (Z.min c 100) (Z.of_nat (length facts)))) in *.
  set (idxs := take size (spread_Set draws)).
  assert (length idxs = size) as Hlen by (by apply length_take_le).
  assert (Forall (λ i, i < length facts)%nat idxs) as Hidxs
    by (by apply Forall_take, Forall_spread_Set).
  assert (NoDup idxs) as Hnd.
  { apply (sublist_NoDup idxs (spread_Set draws));
      [apply NoDup_spread_Set|apply sublist_take]. }
  assert (length (omap (facts !!.) idxs) = size) as Hpicked
    by (by rewrite length_omap_in_range).
  exists (omap (facts !!.) idxs). split; [|split; [|split; [|split; [|split]]]].
  - unfold randomSample. rewrite Hc. cbn [Math_min].
    rewrite sample_loop_start. cbn [sample_size]. fold size.
    rewrite decide_True by done. fold idxs. cbn [mbind option_bind].
    rewrite lookups_in_range by done. do 2 f_equal.
    unfold strict_eq. destruct (decide (c = 1)) as [->|Hc1].
    + rewrite bool_decide_eq_true_2 by done.
      by destruct (omap (facts !!.) idxs).
    + rewrite bool_decide_eq_false_2 by lia. done.
  - rewrite Hpicked. unfold size. lia.
  - apply NoDup_omap_lookup; [apply NoDup_load|done].
  - rewrite Hpicked. fold idxs. symmetry. by apply lookups_in_range.
  - intros Hall. apply whole_corpus; [done..|]. rewrite Hlen. unfold size. lia.
  - intros -> Hne.
    assert (size = 1%nat) as Hsize.
    { unfold size. destruct facts eqn:Hf; [|simpl; lia].
      apply (f_equal length) in Hf. unfold facts in Hf.
      rewrite length_load in Hf. by destruct factsData. }
    rewrite Hsize in Hpicked.
    destruct (omap (facts !!.) idxs) as [|f [|??]]; simplify_eq/=. eauto.
Qed.

Lemma randomSample_spec_witness :
  ∃ picked : list Fact,
    randomSample example_facts (Some "5") [0; 0; 3; 1; 4; 3; 2]%nat
    = Some (json (Many (Some <$> picked)))
    ∧ picked ≡ₚ example_facts.
Proof.
  destruct (randomSample_spec example_data (Some "5")
              [0; 0; 3; 1; 4; 3; 2]%nat 5)
    as (picked & Heq & _ & _ & _ & Hall & _).
  - reflexivity.
  - lia.
  - repeat (constructor; [simpl; lia|]). constructor.
  - vm_compute. lia.
  - exists picked. split; [exact Heq|]. apply Hall. simpl. lia.
Defined.

(** C4, the examples: five facts are asked for and the draws repeat; one
    fact is asked for; six are asked for from five. *)
Example randomSample_5 :
  ∃ picked,
    randomSample example_facts (Some "5") [0; 0; 3; 1; 4; 3; 2]%nat
    = Some (json (Many (Some <$> picked)))
    ∧ id <$> picked = [1; 4; 2; 5; 3].
Proof.
  exists (omap (example_facts !!.) [0; 3; 1; 4; 2]%nat).
  split; reflexivity.
Qed.

Example randomSample_1 :
  ∃ f,
    randomSample example_facts None [2]%nat = Some (json (One (Some f)))
    ∧ id f = 3.
Proof. eexists. split; reflexivity. Qed.

Example randomSample_6_of_5 :
  ∃ picked,
    randomSample example_facts (Some "6") [4; 3; 2; 1; 0]%nat
    = Some (json (Many (Some <$> picked)))
    ∧ id <$> picked = [5; 4; 3; 2; 1].
Proof.
  exists (omap (example_facts !!.) [4; 3; 2; 1; 0]%nat).
  split; reflexivity.
Qed.

(** C4, the counterexamples: with the count -1 the answer is the empty
    array, which does not hold [min(-1, 5)] facts; and on an empty corpus
    the default count 1 is answered with no fact at all. *)
Lemma randomSample_negative_count_and_empty_corpus :
  ¬ randomSample_as_specified example_facts (Some "-1") []
  ∧ ¬ randomSample_as_specified [] None [].
Proof.
  split; intros H.
  - destruct (H (-1) (json (Many [])) eq_refl eq_refl)
      as (picked & _ & Hlen & _).
    lia.
  - destruct (H 1 (json (One None)) eq_refl eq_refl)
      as (picked & _ & _ & Hone & _).
    destruct (Hone eq_refl) as (f & _ & Hresp). discriminate Hresp.
Qed.

Example randomSample_negative_count :
  randomSample example_facts (Some "-1") [] = Some (json (Many []))
  ∧ randomSample [] None [] = Some (json (One None)).
Proof. split; reflexivity. Qed.

(** * Further properties of the servers *)

(** ** Pages *)

Lemma relative_index_nonneg len rel : 0 ≤ len → 0 ≤ relative_index len rel.
Proof. intros Hlen. unfold relative_index. case_match; lia. Qed.

Lemma slice_to_NaN {A} (l : list A) (s : number) : slice l s NaN = [].
Proof.
  unfold slice.
  set (k := relative_index (Z.of_nat (length l)) (ToIntegerOrInfinity s)).
  assert (0 ≤ k) as Hk by (apply relative_index_nonneg; lia).
  assert (relative_index (Z.of_nat (length l)) (ToIntegerOrInfinity NaN) = 0)
    as -> by (unfold relative_index; simpl; lia).
  replace (Z.to_nat (Z.max (0 - k) 0)) with 0%nat by lia. done.
Qed.

Lemma listPage_data facts limit_q offset_q l o :
  parseInt (nullish limit_q "100") = Num l →
  parseInt (nullish offset_q "0") = Num o →
  0 ≤ o → 0 ≤ l →
  listPage facts limit_q offset_q
  = json (Page (take (Z.to_nat (Z.min l 1000)) (drop (Z.to_nat o) facts)) {|
      total := length facts;
      limit := Num (Z.min l 1000);
      offset := Num o;
      hasMore := bool_decide (o + Z.min l 1000 < Z.of_nat (length facts))
    |}).
Proof.
  intros Hl Ho Hnn Hlim. unfold listPage. rewrite Hl, Ho. simpl.
  rewrite slice_positions_between, positions_between_spec by lia.
  do 4 f_equal. lia.
Qed.

(** X1. With an offset and a limit that are not negative, the page holds
    [min(min(limit, 1000), max(N - offset, 0))] facts: never more than
    1000, and never more than the limit. *)
Theorem listPage_length facts limit_q offset_q l o :
  parseInt (nullish limit_q "100") = Num l →
  parseInt (nullish offset_q "0") = Num o →
  0 ≤ o → 0 ≤ l →
  Z.of_nat (length (page_of (listPage facts limit_q offset_q)))
  = Z.min (Z.min l 1000) (Z.max (Z.of_nat (length facts) - o) 0)
  ∧ (length (page_of (listPage facts limit_q offset_q)) ≤ 1000)%nat.
Proof.
  intros Hl Ho Hnn Hlim.
  rewrite (listPage_data facts limit_q offset_q l o) by done.
  cbn [page_of body json]. rewrite length_take, length_drop. lia.
Qed.

Lemma listPage_length_witness :
  Z.of_nat (length (page_of (listPage example_facts (Some "2") (Some "4")))) = 1.
Proof.
  apply (listPage_length example_facts (Some "2") (Some "4") 2 4);
    [reflexivity | reflexivity | lia | lia].
Defined.

(** X2. A limit that is no number gives an empty page and no [hasMore],
    whatever the offset is; the answer is still 200. *)
Theorem listPage_limit_not_a_number facts limit_q offset_q :
  parseInt (nullish limit_q "100") = NaN →
  listPage facts limit_q offset_q
  = json (Page [] {|
      total := length facts;
      limit := NaN;
      offset := parseInt (nullish offset_q "0");
      hasMore := false
    |}).
Proof.
  intros Hl. unfold listPage. rewrite Hl. cbn [Math_min].
  assert (∀ n, add n NaN = NaN) as Hadd by (by intros []).
  rewrite Hadd, slice_to_NaN. destruct (parseInt (nullish offset_q "0")); done.
Qed.

Lemma listPage_limit_not_a_number_witness :
  listPage example_facts (Some "ten") (Some "-2")
  = json (Page [] {|
      total := 5; limit := NaN; offset := Num (-2); hasMore := false |}).
Proof.
  apply (listPage_limit_not_a_number example_facts (Some "ten") (Some "-2")).
  reflexivity.
Defined.

(** X3. With an offset and a limit that are not negative, the corpus is
    the facts before the offset, then the page, then the facts after it,
    and [hasMore] tells exactly whether there are facts after the page. *)
Theorem listPage_tiles facts limit_q offset_q l o :
  parseInt (nullish limit_q "100") = Num l →
  parseInt (nullish offset_q "0") = Num o →
  0 ≤ o → 0 ≤ l →
  ∃ page p,
    listPage facts limit_q offset_q = json (Page page p)
    ∧ facts
      = take (Z.to_nat o) facts ++ page
        ++ drop (Z.to_nat (o + Z.min l 1000)) facts
    ∧ (hasMore p = true ↔ drop (Z.to_nat (o + Z.min l 1000)) facts ≠ []).
Proof.
  intros Hl Ho Hnn Hlim. eexists _, _.
  split; [by apply listPage_data|]. split.
  - replace (Z.to_nat (o + Z.min l 1000))
      with (Z.to_nat o + Z.to_nat (Z.min l 1000))%nat by lia.
    rewrite <- drop_drop, take_drop. by rewrite take_drop.
  - cbn [hasMore]. rewrite bool_decide_eq_true. split.
    + intros Hlt Hnil. apply (f_equal length) in Hnil.
      rewrite length_drop in Hnil. simpl in Hnil. lia.
    + intros Hne. destruct (decide (o + Z.min l 1000 < Z.of_nat (length facts)));
        [done|]. destruct Hne. apply drop_ge. lia.
Qed.

Lemma listPage_tiles_witness :
  ∃ page p,
    listPage example_facts (Some "2") (Some "2") = json (Page page p)
    ∧ example_facts = take 2 example_facts ++ page ++ drop 4 example_facts
    ∧ (hasMore p = true ↔ drop 4 example_facts ≠ []).
Proof.
  apply (listPage_tiles example_facts (Some "2") (Some "2") 2 2);
    [reflexivity | reflexivity | lia | lia].
Defined.

(** ** Search *)

Lemma JS_filter_sublist_mono {A} (p q : A → bool) (l : list A) :
  (∀ x, p x = true → q x = true) →
  JS.filter p l `sublist_of` JS.filter q l.
Proof.
  intros Hpq. unfold JS.filter. induction l as [|x l IH]; [done|].
  rewrite !filter_cons.
  destruct (decide (p x = true)) as [Hp|Hp].
  - rewrite decide_True by auto. by constructor.
  - destruct (decide (q x = true)); [by constructor|done].
Qed.

Lemma occurs_ignoring_case_trans q q' t :
  occurs_ignoring_case q q' → occurs_ignoring_case q' t →
  occurs_ignoring_case q t.
Proof.
  rewrite <- !includes_toLowerCase, !includes_spec.
  intros (a & b & Hq') (c & d & Ht). rewrite Ht, Hq'.
  exists (c +:+ a), (b +:+ d). by rewrite !app_assoc_string.
Qed.

Lemma searchText_data facts q :
  q ≠ "" →
  page_of (searchText facts (Some q))
  = JS.filter (λ f, includes (toLowerCase (text f)) (toLowerCase q)) facts.
Proof. by destruct q. Qed.

(** X4. The case of the letters of the query does not matter: two
    queries that differ only in case select the same facts. *)
Theorem searchText_case_of_query facts q q' :
  same_ignoring_case q q' →
  page_of (searchText facts (Some q)) = page_of (searchText facts (Some q')).
Proof.
  intros Hsame. pose proof Hsame as Hlow%toLowerCase_same.
  destruct Hsame; [done|].
  rewrite !searchText_data by done. by rewrite Hlow.
Qed.

Lemma searchText_case_of_query_witness :
  page_of (searchText example_facts (Some "QUANTUM"))
  = page_of (searchText example_facts (Some "quantum")).
Proof.
  apply (searchText_case_of_query example_facts "QUANTUM" "quantum").
  apply toLowerCase_same. reflexivity.
Defined.

(** X5. A longer query narrows the search: when [q] occurs in [q'], up
    to the case of letters, the facts found for [q'] are among the facts
    found for [q], in the same order. *)
Theorem searchText_narrows facts q q' :
  q ≠ "" →
  occurs_ignoring_case q q' →
  page_of (searchText facts (Some q'))
  `sublist_of` page_of (searchText facts (Some q)).
Proof.
  intros Hq Hocc.
  assert (q' ≠ "") as Hq'.
  { intros ->. destruct Hocc as (pre & mid & post & Heq & Hmid).
    destruct pre; [|done]. destruct mid; [|done].
    inversion Hmid; by subst. }
  rewrite !searchText_data by done. apply JS_filter_sublist_mono.
  intros f. rewrite !includes_toLowerCase.
  by apply occurs_ignoring_case_trans.
Qed.

Lemma searchText_narrows_witness :
  page_of (searchText example_facts (Some "A WAVE"))
  `sublist_of` page_of (searchText example_facts (Some "wa")).
Proof.
  apply (searchText_narrows example_facts "wa" "A WAVE"); [discriminate|].
  apply includes_toLowerCase. reflexivity.
Defined.

(** ** Categories *)

Lemma length_spread_Set `{EqDecision A} (l : list A) :
  (length (spread_Set l) ≤ length l)%nat.
Proof.
  apply submseteq_length, NoDup_submseteq; [apply NoDup_spread_Set|].
  intros x. by rewrite elem_of_spread_Set.
Qed.

Lemma elem_of_categories facts c :
  c ∈ categories facts ↔ ∃ f, f ∈ facts ∧ category f = c.
Proof.
  unfold categories.
  rewrite elem_of_sort, elem_of_spread_Set, list_elem_of_fmap.
  split; intros (f & ? & ?); eauto.
Qed.

Lemma same_ignoring_case_refl s : same_ignoring_case s s.
Proof. by apply toLowerCase_same. Qed.

Lemma byCategory_matched facts name :
  byCategory facts name
  = let matched :=
      JS.filter
        (λ f, bool_decide (toLowerCase (category f) = toLowerCase name)) facts in
    match matched with
    | [] => json_status (Failure (CategoryNotFound (toLowerCase name))) 404
    | _ :: _ => json (InCategory matched name (length matched))
    end.
Proof. unfold byCategory. cbv zeta. by destruct (JS.filter _ facts). Qed.

(** X6. Every name of the category index is found by the category
    lookup: the answer is 200, and it holds every fact filed under that
    name. *)
Theorem listed_category_is_found facts c :
  c ∈ categories facts →
  ∃ matched,
    byCategory facts c = json (InCategory matched c (length matched))
    ∧ matched ≠ []
    ∧ ∀ f, f ∈ facts → category f = c → f ∈ matched.
Proof.
  intros (f0 & Hf0 & Hc)%elem_of_categories.
  rewrite byCategory_matched. cbv zeta.
  assert (∀ f, f ∈ facts → category f = c →
            f ∈ JS.filter
                  (λ f, bool_decide (toLowerCase (category f) = toLowerCase c))
                  facts) as Hin.
  { intros f Hf <-. apply elem_of_JS_filter. split; [done|].
    by apply bool_decide_eq_true. }
  specialize (Hin f0 Hf0 Hc) as Hf0in.
  destruct (JS.filter _ facts) as [|g matched] eqn:Hm.
  - by apply elem_of_nil in Hf0in.
  - eexists. split; [reflexivity|]. split; [done|]. done.
Qed.

Lemma listed_category_is_found_witness :
  ∃ matched,
    byCategory example_facts "physics"
    = json (InCategory matched "physics" (length matched))
    ∧ matched ≠ [].
Proof.
  destruct (listed_category_is_found example_facts "physics")
    as (matched & Heq & Hne & _).
  - apply elem_of_categories.
    exists (with_id 3 (raw "Sound cannot cross a vacuum" "physics")).
    split; [|reflexivity]. apply elem_of_load.
    by exists 3%nat, (raw "Sound cannot cross a vacuum" "physics").
  - exists matched. by split.
Defined.

(** X7. The category lookup answers 404 exactly when no name of the
    category index is the requested name up to the case of letters. *)
Theorem byCategory_not_found_iff facts name :
  status (byCategory facts name) = 404
  ↔ ∀ c, c ∈ categories facts → ¬ same_ignoring_case c name.
Proof.
  rewrite byCategory_matched. cbv zeta.
  destruct (JS.filter _ facts) as [|g matched] eqn:Hm.
  - split; [|done]. intros _ c (f & Hf & <-)%elem_of_categories Hsame.
    assert (f ∈ JS.filter
              (λ f, bool_decide (toLowerCase (category f) = toLowerCase name))
              facts) as Hin.
    { apply elem_of_JS_filter. split; [done|].
      by apply bool_decide_eq_true, toLowerCase_same. }
    rewrite Hm in Hin. by apply elem_of_nil in Hin.
  - split; [done|]. intros Hnone. exfalso.
    assert (g ∈ JS.filter
              (λ f, bool_decide (toLowerCase (category f) = toLowerCase name))
              facts) as [Hg Hlow%bool_decide_eq_true]%elem_of_JS_filter
      by (rewrite Hm; left).
    apply (Hnone (category g)).
    + apply elem_of_categories. eauto.
    + by apply toLowerCase_same.
Qed.

(** ** Statistics *)

(** X8. The statistics count the facts and the names of the category
    index (the number that the category listing reports); there are never
    more categories than facts, and there is none exactly when the corpus
    is empty. The number of sources is the constant 13. *)
Theorem stats_counts facts :
  ∃ n,
    stats facts = json (Statistics (length facts) n 13)
    ∧ listCategories facts = json (Names (categories facts) n)
    ∧ (n ≤ length facts)%nat
    ∧ (n = 0%nat ↔ facts = []).
Proof.
  exists (length (categories facts)).
  split; [done|]. split; [done|]. split.
  - unfold categories. rewrite length_sort.
    etrans; [apply length_spread_Set|]. by rewrite length_fmap.
  - split.
    + intros Hn. apply nil_length_inv in Hn.
      destruct facts as [|f l]; [done|].
      assert (category f ∈ categories (f :: l)) as Hin
        by (apply elem_of_categories; exists f; split; [left|done]).
      rewrite Hn in Hin. by apply elem_of_nil in Hin.
    + by intros ->.
Qed.

(** ** Ids *)

(** X9. In a loaded corpus, an id that reads as [k] is answered with the
    entry at position [k - 1], numbered [k], when [1 ≤ k ≤ N], and is not
    found otherwise. *)
Theorem byId_by_position factsData s k :
  parseInt s = Num k →
  byId (load factsData) s
  = match decide (1 ≤ k), factsData !! Z.to_nat (k - 1) with
    | left _, Some r => json (Single (with_id (Z.to_nat (k - 1)) r))
    | _, _ => json_status (Failure (FactNotFound k)) 404
    end.
Proof. apply byId_load. Qed.

Lemma byId_by_position_witness :
  byId example_facts "0004"
  = json (Single (with_id 3 (raw "Sound cannot cross a vacuum" "physics")))
  ∧ byId example_facts "-1" = json_status (Failure (FactNotFound (-1))) 404.
Proof.
  split.
  - apply (byId_by_position example_data "0004" 4). reflexivity.
  - apply (byId_by_position example_data "-1" (-1)). reflexivity.
Defined.

Lemma decimal_value_shift s a :
  decimal_value a s
  = a * 10 ^ Z.of_nat (String.length s) + decimal_value 0 s.
Proof.
  revert a. induction s as [|c s IH]; intros a.
  - simpl. lia.
  - cbn [decimal_value String.length].
    rewrite (IH (a * 10 + _)), (IH (0 * 10 + _)).
    rewrite Nat2Z.inj_succ, Z.pow_succ_r by lia. lia.
Qed.

Lemma pretty_N_char_digit d :
  (d < 10)%N →
  is_decimal_digit (pretty_N_char d) = true
  ∧ Z.of_N (N_of_ascii (pretty_N_char d)) - 48 = Z.of_N d.
Proof.
  intros Hd. destruct d as [|p]; [done|].
  do 4 (try destruct p as [p|p|]); try lia; done.
Qed.

Lemma pretty_N_go_decimal x s :
  all_decimal s = true →
  all_decimal (pretty_N_go x s) = true
  ∧ decimal_value 0 (pretty_N_go x s)
    = Z.of_N x * 10 ^ Z.of_nat (String.length s) + decimal_value 0 s.
Proof.
  revert s. induction (N.lt_wf_0 x) as [x _ IH]; intros s Hs.
  destruct (decide (x = 0%N)) as [->|Hx].
  - rewrite pretty_N_go_0. split; [done|]. lia.
  - rewrite pretty_N_go_step by lia.
    destruct (pretty_N_char_digit (x `mod` 10)%N) as [Hdigit Hval];
      [by apply N.mod_lt|].
    destruct (IH (x `div` 10)%N ltac:(apply N.div_lt; lia)
                (String (pretty_N_char (x `mod` 10)%N) s)) as [Hall ->].
    { simpl. by rewrite Hdigit, Hs. }
    split; [done|].
    cbn [decimal_value String.length]. rewrite decimal_value_shift, Hval.
    rewrite Nat2Z.inj_succ, Z.pow_succ_r by lia.
    rewrite N2Z.inj_div, N2Z.inj_mod.
    pose proof (Z.div_mod (Z.of_N x) 10 ltac:(lia)). nia.
Qed.

(** Printing an integer and reading it back with [parseInt] gives the
    integer. *)
Lemma parseInt_toString z : parseInt (Number_toString (Num z)) = Num z.
Proof.
  assert (∀ p, let d := pretty_N_go (Npos p) "" in
            d ≠ "" ∧ all_decimal d = true ∧ decimal_value 0 d = Zpos p)
    as Hpos.
  { intros p d. destruct (pretty_N_go_decimal (Npos p) "" eq_refl) as [Hall Hval].
    fold d in Hall, Hval. simpl in Hval. split; [|split; [done|lia]].
    intros Hd. rewrite Hd in Hval. simpl in Hval. lia. }
  unfold Number_toString, pretty, pretty_Z.
  destruct z as [|p|p]; [done|..];
    unfold pretty, pretty_positive, pretty, pretty_N;
    rewrite decide_False by done;
    destruct (Hpos p) as (Hne & Hall & Hval).
  - pose proof (parseInt_leading_integer "" "" (pretty_N_go (Npos p) "") ""
                  eq_refl (or_introl eq_refl) Hne Hall eq_refl) as H.
    rewrite !app_empty_l, app_empty_r, Hval in H.
    rewrite H; [f_equal; unfold sign_value; simpl; lia|]. by intros [_ ?].
  - pose proof (parseInt_leading_integer "" "-" (pretty_N_go (Npos p) "") ""
                  eq_refl (or_intror (or_introl eq_refl)) Hne Hall eq_refl) as H.
    rewrite app_empty_l, app_empty_r, Hval in H.
    rewrite H; [f_equal; unfold sign_value; simpl; lia|]. by intros [_ ?].
Qed.

(** X10. The id of a fact, printed, is an id that the lookup answers with
    that fact: every fact of a listing can be fetched again by its id. *)
Theorem byId_of_printed_id factsData f :
  f ∈ load factsData →
  byId (load factsData) (Number_toString (Num (id f))) = json (Single f).
Proof.
  intros Hf.
  destruct (byId_found (load factsData) (Number_toString (Num (id f))) (id f))
    as (g & -> & Hg & Hid & Huniq).
  - apply parseInt_toString.
  - eauto.
  - do 2 f_equal. symmetry. apply Huniq; [apply NoDup_ids_load|done..].
Qed.

Lemma byId_of_printed_id_witness :
  byId example_facts "5"
  = json (Single (with_id 4 (raw "Octopuses have three hearts" "Biology"))).
Proof.
  apply (byId_of_printed_id example_data
           (with_id 4 (raw "Octopuses have three hearts" "Biology"))).
  apply elem_of_load.
  by exists 4%nat, (raw "Octopuses have three hearts" "Biology").
Defined.

(** ** One corpus per process *)

Section one_corpus.

Variable network : nat → option (list RawFact).

Lemma handle_warm r c n :
  handle network r {| factsCache := Some c; fetches := n |}
  = (respond c r, {| factsCache := Some c; fetches := n |}).
Proof.
  unfold handle, async_bind. rewrite loadFacts_cached.
  destruct r; try reflexivity. simpl.
  by destruct (randomSample c count_q draws).
Qed.

Lemma handle_cold r n :
  handle network r {| factsCache := None; fetches := n |}
  = match network n with
    | Some data =>
        (respond (load data) r,
         {| factsCache := Some (load data); fetches := S n |})
    | None => (Rejected, {| factsCache := None; fetches := S n |})
    end.
Proof.
  unfold handle, async_bind. rewrite loadFacts_first.
  destruct (network n) as [data|]; [|done].
  destruct r; try reflexivity. simpl.
  by destruct (randomSample (load data) count_q draws).
Qed.

Lemma serve_warm rs c n :
  fst (serve network rs {| factsCache := Some c; fetches := n |})
  = respond c <$> rs.
Proof.
  induction rs as [|r rs IH]; [done|]. simpl. rewrite handle_warm.
  destruct (serve network rs _) as [os p]. simpl in *. by rewrite IH.
Qed.

(** X11. A process answers from one corpus. Starting with no cache, the
    requests that arrive while the fetch fails are rejected; the first
    fetch that succeeds fixes the corpus, and every later request is
    answered from it, whatever the network holds afterwards. *)
Theorem serve_one_corpus rs n k data :
  (∀ i, (n ≤ i < n + k)%nat → network i = None) →
  network (n + k)%nat = Some data →
  fst (serve network rs {| factsCache := None; fetches := n |})
  = replicate (k `min` length rs) Rejected ++ (respond (load data) <$> drop k rs).
Proof.
  revert n rs. induction k as [|k IH]; intros n rs Hdown Hup.
  - rewrite Nat.add_0_r in Hup. destruct rs as [|r rs]; [done|].
    simpl. rewrite handle_cold, Hup.
    pose proof (serve_warm rs (load data) (S n)) as Hrest.
    destruct (serve network rs _) as [os p]. simpl in *. by rewrite Hrest.
  - destruct rs as [|r rs]; [done|].
    simpl. rewrite handle_cold, (Hdown n) by lia.
    specialize (IH (S n) rs).
    destruct (serve network rs _) as [os p]. simpl in *. f_equal.
    apply IH.
    + intros i Hi. apply Hdown. lia.
    + rewrite <- Hup. f_equal. lia.
Qed.

End one_corpus.

Lemma serve_one_corpus_witness :
  fst (serve down_then_up [GetStats; GetFact "1"; GetCategories]
         {| factsCache := None; fetches := 0 |})
  = [Rejected; respond example_facts (GetFact "1");
     respond example_facts GetCategories].
Proof.
  apply (serve_one_corpus down_then_up
           [GetStats; GetFact "1"; GetCategories] 0 1 example_data).
  - intros i Hi. assert (i = 0%nat) as -> by lia. reflexivity.
  - reflexivity.
Defined.

(** X12. The bot is silent while the data cannot be fetched: with no
    cache and a failing fetch, no message is sent for any update, not
    even for [/start], and the failure is not cached. On a loaded
    process the bot answers from the cached corpus and fetches nothing. *)
Theorem bot_needs_the_corpus toLocaleString network chatId message_text draws n :
  (network n = None →
   bot toLocaleString network chatId message_text draws
     {| factsCache := None; fetches := n |}
   = (([], Rejected), {| factsCache := None; fetches := S n |}))
  ∧ (∀ c,
       bot toLocaleString network chatId message_text draws
         {| factsCache := Some c; fetches := n |}
       = (bot_route toLocaleString c chatId message_text draws,
          {| factsCache := Some c; fetches := n |})).
Proof.
  split.
  - intros Hn. unfold bot. by rewrite loadFacts_first, Hn.
  - intros c. unfold bot. by rewrite loadFacts_cached.
Qed.

Lemma bot_needs_the_corpus_witness :
  bot pretty down_then_up 7 (Some "/start") []
    {| factsCache := None; fetches := 0 |}
  = (([], Rejected), {| factsCache := None; fetches := 1 |}).
Proof.
  apply (bot_needs_the_corpus pretty down_then_up 7 (Some "/start") [] 0%nat).
  reflexivity.
Defined.

(** ** The bot: trimming *)

Lemma trim_end_empty s : trim_end s = "" ↔ all_white_space s = true.
Proof.
  induction s as [|c s IH]; [done|]. cbn [trim_end all_white_space].
  rewrite andb_true_iff, <- IH.
  destruct (trim_end s) as [|c' r]; [|split; [done|by intros [_ ?]]].
  destruct (is_white_space c); split; try done; by intros [??].
Qed.

Lemma ends_with_trim_end s : ends_with is_white_space (trim_end s) = false.
Proof.
  induction s as [|c s IH]; [done|]. cbn [trim_end].
  destruct (trim_end s) as [|c' r] eqn:Hr.
  - by destruct (is_white_space c) eqn:Hc; simpl.
  - exact IH.
Qed.

Lemma trim_end_id s : ends_with is_white_space s = false → trim_end s = s.
Proof.
  induction s as [|c s IH]; [done|]. cbn [trim_end].
  destruct s as [|c' s'].
  - simpl. by intros ->.
  - intros Hs. rewrite IH by exact Hs. done.
Qed.

Lemma trim_start_empty s : trim_start s = "" ↔ all_white_space s = true.
Proof.
  induction s as [|c s IH]; [done|]. cbn [trim_start all_white_space].
  destruct (is_white_space c); [by rewrite IH|done].
Qed.

Lemma all_white_space_trim_start s :
  all_white_space (trim_start s) = true → all_white_space s = true.
Proof.
  induction s as [|c s IH]; [done|]. cbn [trim_start all_white_space].
  destruct (is_white_space c) eqn:Hc; [done|].
  cbn [all_white_space]. by rewrite Hc.
Qed.

Lemma trim_empty s : trim s = "" → all_white_space s = true.
Proof.
  unfold trim. intros H%trim_end_empty. by apply all_white_space_trim_start.
Qed.

Lemma trim_id s :
  begins_with is_white_space s = false →
  ends_with is_white_space s = false →
  trim s = s.
Proof.
  intros Hb He. unfold trim. rewrite trim_start_id by done.
  by apply trim_end_id.
Qed.

Lemma ends_with_app p u w :
  w ≠ "" → ends_with p (u +:+ w) = ends_with p w.
Proof.
  intros Hw. induction u as [|c u IH]; [done|].
  rewrite app_String. cbn [ends_with].
  destruct (u +:+ w) eqn:Huw; [|done].
  destruct u; [by rewrite app_empty_l in Huw|by rewrite app_String in Huw].
Qed.

Lemma ends_with_all_white_space w :
  w ≠ "" → all_white_space w = true → ends_with is_white_space w = true.
Proof.
  induction w as [|c w IH]; [done|]. intros _.
  cbn [all_white_space]. intros [Hc Hw]%andb_true_iff.
  destruct w as [|c' w']; [done|]. cbn [ends_with]. by apply IH.
Qed.

(** A trimmed text that starts with a command and a space goes on with
    an argument that is not empty. *)
Lemma trimmed_argument raw (cmd rest : string) :
  cmd ≠ "" →
  ends_with is_white_space cmd = true →
  trim raw = cmd +:+ rest →
  trim rest ≠ "".
Proof.
  intros Hcmd Hsp Htext Hrest%trim_empty.
  pose proof (ends_with_trim_end (trim_start raw)) as Hclean.
  fold (trim raw) in Hclean. rewrite Htext in Hclean.
  destruct rest as [|c rest].
  - rewrite app_empty_r in Hclean. congruence.
  - rewrite ends_with_app in Hclean by done.
    rewrite ends_with_all_white_space in Hclean by done. done.
Qed.

Lemma slice_from_app (cmd rest : string) :
  slice_from (String.length cmd) (cmd +:+ rest) = rest.
Proof. induction cmd as [|c cmd IH]; [by destruct rest|]. by rewrite app_String. Qed.

Lemma starts_differently s t p :
  startsWith s p = true → startsWith t p = false → s ≠ t.
Proof. intros Hs Ht ->. congruence. Qed.

(** ** The bot: what is sent *)

Lemma for_of_telegram {A} (g : A → Message) (l : list A) :
  for_of l (λ x, telegram (g x)) = (g <$> l, Fulfilled ()).
Proof.
  induction l as [|x l IH]; [done|]. cbn [for_of]. rewrite IH. done.
Qed.

Lemma for_of_send_fact facts chatId (idxs : list nat) :
  Forall (λ i, i < length facts)%nat idxs →
  for_of idxs (λ idx, send_fact chatId (facts !! idx))
  = (fact_message chatId <$> omap (facts !!.) idxs, Fulfilled ()).
Proof.
  induction 1 as [|i idxs Hi _ IH]; [done|].
  apply lookup_lt_is_Some_2 in Hi as [f Hf].
  cbn [for_of]. rewrite Hf, IH. simpl. by rewrite Hf.
Qed.

(** Whatever the indices are, the loop sends at most one message for each
    and only facts. *)
Lemma for_of_send_fact_sent (facts : list Fact) chatId (idxs : list nat) :
  (length (fst (for_of idxs (λ idx, send_fact chatId (facts !! idx))))
   ≤ length idxs)%nat
  ∧ Forall (λ m, ∃ f, m = fact_message chatId f)
      (fst (for_of idxs (λ idx, send_fact chatId (facts !! idx)))).
Proof.
  induction idxs as [|i idxs [IHlen IHall]]; [by split|].
  cbn [for_of]. destruct (facts !! i) as [f|]; simpl; [|split; [lia|done]].
  destruct (for_of idxs _) as [sent o]. simpl in *.
  split; [lia|]. constructor; eauto.
Qed.

Lemma slice_first {A} (l : list A) (n : Z) :
  0 ≤ n → slice l (Num 0) (Num n) = take (Z.to_nat n) l.
Proof.
  intros Hn. rewrite slice_positions_between, positions_between_spec by lia.
  simpl. by rewrite Z.sub_0_r.
Qed.

Lemma random5_loop_spec (draws seen : list nat) :
  (length seen ≤ 5)%nat →
  random5_loop draws seen
  = if decide (5 ≤ length (foldl Set_add seen draws))%nat
    then Some (take 5 (foldl Set_add seen draws))
    else None.
Proof.
  revert seen. induction draws as [|idx draws IH]; intros seen Hlen.
  - cbn [random5_loop foldl].
    case_bool_decide; case_decide; try lia; [done|].
    by rewrite take_ge by lia.
  - cbn [random5_loop foldl]. case_bool_decide as Hmore.
    + apply IH. unfold Set_add. case_decide; [lia|].
      rewrite length_app. simpl. lia.
    + assert (length seen = 5%nat) as Hfive by lia.
      pose proof (length_foldl_Set_add (idx :: draws) seen) as Hge.
      cbn [foldl] in Hge. rewrite decide_True by lia.
      f_equal. rewrite <- Hfive.
      symmetry. apply (take_foldl_Set_add (idx :: draws) seen).
Qed.

Lemma length_distinct_below (M : nat) (l : list nat) :
  NoDup l → Forall (λ i, i < M)%nat l → (length l ≤ M)%nat.
Proof.
  intros Hnd Hl. trans (length (seq 0 M)); [|by rewrite length_seq].
  apply submseteq_length, NoDup_submseteq; [done|].
  intros i Hi. apply elem_of_seq. rewrite Forall_forall in Hl.
  apply Hl in Hi. lia.
Qed.

(** ** The bot: dispatch *)

Section bot_facts.

Variable toLocaleString : nat → string.
Variable facts : list Fact.
Variable chatId : Z.

Lemma bot_route_search raw draws :
  startsWith (trim raw) "/search " = true →
  trim (slice_from 8 (trim raw)) ≠ ""
  ∧ bot_route toLocaleString facts chatId (Some raw) draws
    = search_reply facts chatId (trim (slice_from 8 (trim raw))).
Proof.
  intros Hstart. split.
  - pose proof Hstart as [rest Hrest]%startsWith_spec.
    rewrite Hrest.
    rewrite (slice_from_app "/search " rest
             : slice_from 8 ("/search " +:+ rest) = rest).
    by apply (trimmed_argument raw "/search " rest).
  - unfold bot_route. destruct raw as [|c raw]; [done|]. cbn [falsy nullish].
    rewrite !bool_decide_eq_false_2
      by (by apply (starts_differently _ _ "/search ")).
    by rewrite Hstart.
Qed.

Lemma bot_route_category raw draws :
  startsWith (trim raw) "/category " = true →
  trim (slice_from 10 (trim raw)) ≠ ""
  ∧ bot_route toLocaleString facts chatId (Some raw) draws
    = category_reply facts chatId
        (replace_all " " "_" (toLowerCase (trim (slice_from 10 (trim raw))))).
Proof.
  intros Hstart. pose proof Hstart as [rest Hrest]%startsWith_spec. split.
  - rewrite Hrest.
    rewrite (slice_from_app "/category " rest
             : slice_from 10 ("/category " +:+ rest) = rest).
    by apply (trimmed_argument raw "/category " rest).
  - unfold bot_route. destruct raw as [|c raw]; [done|]. cbn [falsy nullish].
    rewrite !bool_decide_eq_false_2
      by (by apply (starts_differently _ _ "/category ")).
    assert (startsWith (trim (String c raw)) "/search " = false) as ->
      by (by rewrite Hrest).
    by rewrite Hstart.
Qed.

Lemma bot_route_random5 raw draws :
  trim raw = "/random5" →
  bot_route toLocaleString facts chatId (Some raw) draws
  = random5_reply facts chatId draws.
Proof.
  intros Htext. unfold bot_route. destruct raw as [|c raw]; [done|].
  cbn [falsy nullish]. by rewrite Htext.
Qed.

Lemma reply_ok_nil (o : outcome unit) : reply_ok ([], o).
Proof. split; [simpl; lia|constructor]. Qed.

Lemma reply_ok_one (msg : Message) :
  begins_with is_U (msg_text msg) = false → reply_ok (telegram msg).
Proof. intros H. split; [simpl; lia|by repeat constructor]. Qed.

Lemma formatFact_begins f : begins_with is_U (formatFact f) = false.
Proof. unfold formatFact. by destruct (falsy (source_url f)). Qed.

Lemma fact_messages_ok (l : list Fact) :
  Forall (λ msg, begins_with is_U (msg_text msg) = false)
    (fact_message chatId <$> l).
Proof. apply Forall_fmap, Forall_forall. intros f _. apply formatFact_begins. Qed.

Lemma random_reply_ok draws : reply_ok (random_reply facts chatId draws).
Proof.
  unfold random_reply. destruct draws as [|idx ?]; [apply reply_ok_nil|].
  destruct (facts !! idx) as [f|]; [|apply reply_ok_nil].
  apply reply_ok_one, formatFact_begins.
Qed.

Lemma random5_reply_ok draws : reply_ok (random5_reply facts chatId draws).
Proof.
  unfold random5_reply. rewrite random5_loop_spec by (simpl; lia).
  case_decide as Hfive; [|apply reply_ok_nil].
  destruct (for_of_send_fact_sent facts chatId
              (take 5 (foldl Set_add [] draws))) as [Hlen Hall].
  split.
  - etrans; [exact Hlen|]. rewrite length_take. lia.
  - eapply Forall_impl; [exact Hall|].
    intros m [f ->]. apply formatFact_begins.
Qed.

Lemma header_and_facts_ok (header : Message) (l : list Fact) :
  begins_with is_U (msg_text header) = false →
  reply_ok
    (sending_bind (telegram header)
       (λ _, for_of (slice l (Num 0) (Num 3))
               (λ fact, telegram (fact_message chatId fact)))).
Proof.
  intros Hheader. unfold reply_ok.
  rewrite for_of_telegram, slice_first by lia.
  cbn [sending_bind telegram fst app].
  split.
  - cbn [length]. rewrite length_fmap, length_take. lia.
  - constructor; [done|]. apply fact_messages_ok.
Qed.

Lemma search_reply_ok query : query ≠ "" → reply_ok (search_reply facts chatId query).
Proof.
  intros Hq. unfold search_reply. destruct query as [|c query]; [done|].
  cbn [falsy]. cbv zeta.
  case_bool_decide; [by apply reply_ok_one|by apply header_and_facts_ok].
Qed.

Lemma category_reply_ok cat : reply_ok (category_reply facts chatId cat).
Proof.
  unfold category_reply. cbv zeta.
  case_bool_decide; [by apply reply_ok_one|by apply header_and_facts_ok].
Qed.

Lemma bot_route_ok message_text draws :
  reply_ok (bot_route toLocaleString facts chatId message_text draws).
Proof.
  unfold bot_route. destruct (falsy message_text) eqn:Hfalsy;
    [apply reply_ok_nil|].
  destruct message_text as [raw|]; [|done]. cbn [nullish].
  case_bool_decide; [by apply reply_ok_one|].
  case_bool_decide; [apply random_reply_ok|].
  case_bool_decide; [apply random5_reply_ok|].
  destruct (startsWith (trim raw) "/search ") eqn:Hsearch.
  { apply search_reply_ok. by apply (bot_route_search raw draws). }
  case_bool_decide; [by apply reply_ok_one|].
  destruct (startsWith (trim raw) "/category ") eqn:Hcat;
    [apply category_reply_ok|].
  case_bool_decide; [by apply reply_ok_one|].
  apply random_reply_ok.
Qed.

End bot_facts.

(** X13. The usage reply of [/search] is never sent: the text of the
    update is trimmed before it is compared, so a text that starts with
    [/search] and a space always carries a query, and every other reply
    has another text. *)
Theorem bot_never_sends_usage toLocaleString facts chatId message_text draws m :
  m ∈ fst (bot_route toLocaleString facts chatId message_text draws) →
  msg_text m ≠ "Usage: /search <query>".
Proof.
  intros Hm Htext.
  destruct (bot_route_ok toLocaleString facts chatId message_text draws)
    as [_ Hall].
  rewrite Forall_forall in Hall. apply Hall in Hm.
  by rewrite Htext in Hm.
Qed.

Lemma bot_never_sends_usage_witness :
  msg_text (plain 7 (String.append "No facts found for "
                       (String.append dquote (String.append "zzz" dquote))))
  ≠ "Usage: /search <query>".
Proof.
  apply (bot_never_sends_usage pretty example_facts 7 (Some "/search   zzz ") []).
  left.
Defined.

(** X14. An update is answered with at most five messages. *)
Theorem bot_sends_at_most_five toLocaleString facts chatId message_text draws :
  (length (fst (bot_route toLocaleString facts chatId message_text draws)) ≤ 5)%nat.
Proof. apply bot_route_ok. Qed.

(** ** The bot: random facts *)

(** X15. [/random5] needs five facts: on a corpus with fewer than five
    facts the loop that collects five distinct indices never ends,
    whatever is drawn, and nothing is sent. (The route of the API guards
    the same loop with the size of the corpus.) *)
Theorem bot_random5_needs_five_facts
    toLocaleString (facts : list Fact) chatId raw draws :
  trim raw = "/random5" →
  (length facts < 5)%nat →
  Forall (λ i, i < 1 `max` length facts)%nat draws →
  bot_route toLocaleString facts chatId (Some raw) draws = ([], Unfinished).
Proof.
  intros Htext Hfew Hdraws. rewrite bot_route_random5 by done.
  unfold random5_reply. rewrite random5_loop_spec by (simpl; lia).
  rewrite decide_False; [done|].
  pose proof (length_distinct_below (1 `max` length facts) (spread_Set draws)
                (NoDup_spread_Set draws) (Forall_spread_Set _ draws Hdraws)).
  unfold spread_Set in *. lia.
Qed.

Lemma bot_random5_needs_five_facts_witness :
  bot_route pretty labelled_facts 7 (Some " /random5 ") [0; 2; 1; 1; 0; 2]%nat
  = ([], Unfinished).
Proof.
  apply (bot_random5_needs_five_facts pretty labelled_facts 7 " /random5 ");
    [reflexivity | simpl; lia |].
  repeat (constructor; [simpl; lia|]). constructor.
Defined.

(** X16. On a loaded corpus of at least five facts, [/random5] sends the
    five facts that the API returns for [count=5] on the same draws, in
    the same order: five distinct facts, one message each. *)
Theorem bot_random5_like_the_api
    toLocaleString (factsData : list RawFact) chatId raw draws :
  trim raw = "/random5" →
  (5 ≤ length factsData)%nat →
  Forall (λ i, i < length factsData)%nat draws →
  (5 ≤ length (spread_Set draws))%nat →
  ∃ picked,
    randomSample (load factsData) (Some "5") draws
    = Some (json (Many (Some <$> picked)))
    ∧ bot_route toLocaleString (load factsData) chatId (Some raw) draws
      = (fact_message chatId <$> picked, Fulfilled ())
    ∧ length picked = 5%nat
    ∧ NoDup picked.
Proof.
  intros Htext Hfive Hrange Henough.
  rewrite <- (length_load factsData) in *.
  set (facts := load factsData) in *.
  set (idxs := take 5 (spread_Set draws)).
  assert (length idxs = 5%nat) as Hlen by (by apply length_take_le).
  assert (Forall (λ i, i < length facts)%nat idxs) as Hidxs
    by (by apply Forall_take, Forall_spread_Set).
  exists (omap (facts !!.) idxs). split; [|split; [|split]].
  - unfold randomSample.
    change (Math_min (parseInt (nullish (Some "5") "1")) (Num 100)) with (Num 5).
    rewrite sample_loop_start. cbn [sample_size].
    replace (Z.to_nat (Z.min 5 (Z.of_nat (length facts)))) with 5%nat by lia.
    rewrite decide_True by done. fold idxs. cbn [mbind option_bind].
    by rewrite lookups_in_range.
  - rewrite bot_route_random5 by done. unfold random5_reply.
    rewrite random5_loop_spec by (simpl; lia).
    fold (spread_Set draws). rewrite decide_True by done. fold idxs.
    by apply for_of_send_fact.
  - by rewrite length_omap_in_range.
  - apply NoDup_omap_lookup; [apply NoDup_load|].
    apply (sublist_NoDup idxs (spread_Set draws));
      [apply NoDup_spread_Set|apply sublist_take].
Qed.

Lemma bot_random5_like_the_api_witness :
  ∃ picked,
    randomSample example_facts (Some "5") [4; 4; 0; 3; 1; 2]%nat
    = Some (json (Many (Some <$> picked)))
    ∧ bot_route pretty example_facts 7 (Some "/random5") [4; 4; 0; 3; 1; 2]%nat
      = (fact_message 7 <$> picked, Fulfilled ()).
Proof.
  destruct (bot_random5_like_the_api pretty example_data 7 "/random5"
              [4; 4; 0; 3; 1; 2]%nat)
    as (picked & Hapi & Hbot & _).
  - reflexivity.
  - simpl. lia.
  - repeat (constructor; [simpl; lia|]). constructor.
  - vm_compute. lia.
  - exists picked. by split.
Defined.

(** ** The bot: search and categories *)

(** X17. [/search] agrees with the search of the API on the query that
    the bot reads from the text: the number in the header is the count of
    the API, and the facts sent are the first three of its matches. *)
Theorem bot_search_like_the_api
    toLocaleString (facts : list Fact) chatId raw draws :
  startsWith (trim raw) "/search " = true →
  ∃ results,
    searchText facts (Some (trim (slice_from 8 (trim raw))))
    = json (Matches results (length results) (trim (slice_from 8 (trim raw))))
    ∧ fst (bot_route toLocaleString facts chatId (Some raw) draws)
      = match results with
        | [] =>
            [plain chatId
               ("No facts found for " +:+ dquote
                +:+ trim (slice_from 8 (trim raw)) +:+ dquote)]
        | _ :: _ =>
            plain chatId
              ("Found " +:+ Number_toString (Num (Z.of_nat (length results)))
               +:+ " facts for " +:+ dquote
               +:+ trim (slice_from 8 (trim raw)) +:+ dquote +:+ ":")
            :: (fact_message chatId <$> take 3 results)
        end.
Proof.
  intros Hstart.
  destruct (bot_route_search toLocaleString facts chatId raw draws Hstart)
    as [Hquery ->].
  destruct (trim (slice_from 8 (trim raw))) as [|c query]; [done|].
  eexists. split; [reflexivity|].
  unfold search_reply. cbn [falsy]. cbv zeta.
  destruct (JS.filter _ facts) as [|f results]; [done|].
  rewrite bool_decide_eq_false_2 by done.
  rewrite for_of_telegram, slice_first by lia. done.
Qed.

Lemma bot_search_like_the_api_witness :
  ∃ results,
    searchText example_facts (Some (trim (slice_from 8 (trim "/search  A "))))
    = json (Matches results (length results)
              (trim (slice_from 8 (trim "/search  A "))))
    ∧ fst (bot_route pretty example_facts 7 (Some "/search  A ") [])
      = match results with
        | [] =>
            [plain 7
               ("No facts found for " +:+ dquote
                +:+ trim (slice_from 8 (trim "/search  A ")) +:+ dquote)]
        | _ :: _ =>
            plain 7
              ("Found " +:+ Number_toString (Num (Z.of_nat (length results)))
               +:+ " facts for " +:+ dquote
               +:+ trim (slice_from 8 (trim "/search  A ")) +:+ dquote +:+ ":")
            :: (fact_message 7 <$> take 3 results)
        end.
Proof.
  apply (bot_search_like_the_api pretty example_facts 7 "/search  A " []).
  reflexivity.
Defined.

Example bot_search_A :
  searchText example_facts (Some "A")
  = json (Matches example_facts 5 "A")
  ∧ msg_text <$> fst (bot_route pretty example_facts 7 (Some "/search  A ") [])
    = [ "Found 5 facts for " +:+ dquote +:+ "A" +:+ dquote +:+ ":";
        formatFact (with_id 0 (raw "Light is both a wave and a particle" "Physics"));
        formatFact (with_id 1 (raw "Quantum tunnelling powers the Sun" "Physics"));
        formatFact (with_id 2 (raw "Water expands when it freezes" "Chemistry")) ].
Proof. split; reflexivity. Qed.

Lemma toLowerCase_char_space c :
  toLowerCase_char c = " "%char ↔ c = " "%char.
Proof.
  split; [|by intros ->]. intros H. apply N_of_ascii_inj.
  apply (f_equal N_of_ascii) in H. rewrite code_toLowerCase_char in H.
  destruct (is_upper c) eqn:Hup; [|done].
  apply is_upper_spec in Hup. simpl in H. lia.
Qed.

Lemma has_char_space_toLowerCase s :
  has_char " " (toLowerCase s) = has_char " " s.
Proof.
  induction s as [|c s IH]; [done|]. cbn [toLowerCase has_char]. rewrite IH.
  f_equal. apply bool_decide_ext, toLowerCase_char_space.
Qed.

Lemma has_char_replaced a b s : a ≠ b → has_char a (replace_all a b s) = false.
Proof.
  intros Hab. induction s as [|c s IH]; [done|].
  cbn [replace_all has_char]. rewrite IH, orb_false_r.
  apply bool_decide_eq_false. case_bool_decide; congruence.
Qed.

(** X18. The name that [/category] looks up never contains a space
    (spaces are turned into underscores), so a fact whose category is
    written with a space is never among the facts it finds. *)
Theorem bot_category_never_matches_a_space
    toLocaleString (facts : list Fact) chatId raw draws :
  startsWith (trim raw) "/category " = true →
  ∃ cat,
    bot_route toLocaleString facts chatId (Some raw) draws
    = category_reply facts chatId cat
    ∧ has_char " " cat = false
    ∧ ∀ f,
        has_char " " (category f) = true →
        f ∉ JS.filter (λ f, bool_decide (toLowerCase (category f) = cat)) facts.
Proof.
  intros Hstart.
  destruct (bot_route_category toLocaleString facts chatId raw draws Hstart)
    as [_ ->].
  eexists. split; [reflexivity|].
  assert (∀ s, has_char " " (replace_all " " "_" s) = false) as Hnone
    by (intros s; by apply has_char_replaced).
  split; [apply Hnone|].
  intros f Hspace [_ Heq%bool_decide_eq_true]%elem_of_JS_filter.
  rewrite <- has_char_space_toLowerCase, Heq, Hnone in Hspace. done.
Qed.

Lemma bot_category_never_matches_a_space_witness :
  ∃ cat,
    bot_route pretty labelled_facts 7 (Some "/category Space Science") []
    = category_reply labelled_facts 7 cat
    ∧ has_char " " cat = false.
Proof.
  destruct (bot_category_never_matches_a_space pretty labelled_facts 7
              "/category Space Science" [])
    as (cat & Heq & Hcat & _); [reflexivity|].
  exists cat. by split.
Defined.

(** A category written with a space is listed by [/categories] and not
    found by [/category]. *)
Example bot_category_with_a_space :
  "Space Science" ∈ categories labelled_facts
  ∧ fst (bot_route pretty labelled_facts 7 (Some "/category Space Science") [])
    = [plain 7 "Category not found. Use /categories"].
Proof. split; [|reflexivity]. vm_compute. right. left. Qed.

Lemma is_edge_false c :
  is_edge c = false → is_white_space c = false ∧ c ≠ "_"%char.
Proof.
  unfold is_edge. intros [? ?%bool_decide_eq_false]%orb_false_iff. done.
Qed.

Lemma replace_all_empty a b s : replace_all a b s = "" → s = "".
Proof. by destruct s. Qed.

Lemma begins_with_shown c :
  begins_with is_edge c = false →
  begins_with is_white_space (replace_all "_" " " c) = false.
Proof.
  destruct c as [|ch c]; [done|]. cbn [begins_with replace_all].
  intros [Hws Hch]%is_edge_false. by rewrite bool_decide_eq_false_2.
Qed.

Lemma ends_with_shown c :
  ends_with is_edge c = false →
  ends_with is_white_space (replace_all "_" " " c) = false.
Proof.
  induction c as [|ch c IH]; [done|]. cbn [replace_all].
  destruct c as [|ch' c'].
  - cbn [ends_with replace_all]. intros [Hws Hch]%is_edge_false.
    by rewrite bool_decide_eq_false_2.
  - intros Hc. specialize (IH Hc). cbn [replace_all] in *. exact IH.
Qed.

(** Showing underscores as spaces and reading spaces as underscores give
    the name back, in lower case, when the name has no space of its own. *)
Lemma shown_name_normalised c :
  has_char " " c = false →
  replace_all " " "_" (toLowerCase (replace_all "_" " " c)) = toLowerCase c.
Proof.
  induction c as [|ch c IH]; [done|]. cbn [has_char].
  intros [Hch%bool_decide_eq_false Hc]%orb_false_iff.
  cbn [replace_all toLowerCase]. rewrite IH by done. f_equal.
  destruct (decide (ch = "_"%char)) as [->|Hus]; [reflexivity|].
  rewrite (bool_decide_eq_false_2 (ch = "_"%char)) by done.
  rewrite bool_decide_eq_false_2; [done|].
  by rewrite toLowerCase_char_space.
Qed.

(** X19. A category shown by the bot can be typed back: for a category
    of the corpus that has no space in its name and neither begins nor
    ends with an underscore or white space, [/category] followed by the
    name as the bot shows it (underscores as spaces) finds the facts that
    the category lookup of the API finds for the name, and sends a header
    with their number and the first three of them. *)
Theorem bot_category_round_trip
    toLocaleString (facts : list Fact) chatId c draws :
  c ∈ categories facts →
  c ≠ "" →
  has_char " " c = false →
  begins_with is_edge c = false →
  ends_with is_edge c = false →
  ∃ matched,
    byCategory facts c = json (InCategory matched c (length matched))
    ∧ fst (bot_route toLocaleString facts chatId
             (Some ("/category " +:+ replace_all "_" " " c)) draws)
      = markdown chatId
          ("📂 *" +:+ replace_all "_" " " (toLowerCase c) +:+ "* ("
           +:+ Number_toString (Num (Z.of_nat (length matched)))
           +:+ " facts)")
        :: (fact_message chatId <$> take 3 matched).
Proof.
  intros (f0 & Hf0 & Hc)%elem_of_categories Hne Hspace Hbegin Hend.
  set (shown := replace_all "_" " " c).
  assert (shown ≠ "") as Hshown by (by intros ?%replace_all_empty).
  assert (trim shown = shown) as Htrim_shown
    by (by apply trim_id; [apply begins_with_shown|apply ends_with_shown]).
  assert (trim ("/category " +:+ shown) = "/category " +:+ shown) as Htrim.
  { apply trim_id; [done|].
    rewrite ends_with_app by done. by apply ends_with_shown. }
  destruct (bot_route_category toLocaleString facts chatId
              ("/category " +:+ shown) draws) as [_ ->].
  { rewrite Htrim. apply startsWith_spec. eauto. }
  rewrite Htrim.
  rewrite (slice_from_app "/category " shown
           : slice_from 10 ("/category " +:+ shown) = shown).
  rewrite Htrim_shown. unfold shown. rewrite shown_name_normalised by done.
  rewrite byCategory_matched. unfold category_reply. cbv zeta.
  assert (f0 ∈ JS.filter
            (λ f, bool_decide (toLowerCase (category f) = toLowerCase c)) facts)
    as Hin.
  { apply elem_of_JS_filter. split; [done|].
    apply bool_decide_eq_true. by rewrite Hc. }
  destruct (JS.filter _ facts) as [|g matched]; [by apply elem_of_nil in Hin|].
  eexists. split; [reflexivity|].
  rewrite bool_decide_eq_false_2 by done.
  rewrite for_of_telegram, slice_first by lia. done.
Qed.

Lemma bot_category_round_trip_witness :
  ∃ matched,
    byCategory labelled_facts "Quantum_Physics"
    = json (InCategory matched "Quantum_Physics" (length matched))
    ∧ fst (bot_route pretty labelled_facts 7
             (Some "/category Quantum Physics") [])
      = markdown 7
          ("📂 *" +:+ "quantum physics" +:+ "* ("
           +:+ Number_toString (Num (Z.of_nat (length matched)))
           +:+ " facts)")
        :: (fact_message 7 <$> take 3 matched).
Proof.
  apply (bot_category_round_trip pretty labelled_facts 7 "Quantum_Physics" []).
  - vm_compute. left.
  - discriminate.
  - reflexivity.
  - reflexivity.
  - reflexivity.
Defined.

(** ** More on categories and pages *)

(** X20. The case of the letters of the requested name does not matter
    to the category lookup: two names that differ only in case select the
    same facts (and are both not found, or both found). *)
Theorem byCategory_case_of_name facts name name' :
  same_ignoring_case name name' →
  page_of (byCategory facts name) = page_of (byCategory facts name')
  ∧ status (byCategory facts name) = status (byCategory facts name').
Proof.
  intros Hlow%toLowerCase_same. rewrite !byCategory_matched. cbv zeta.
  rewrite Hlow. by destruct (JS.filter _ facts).
Qed.

Lemma byCategory_case_of_name_witness :
  page_of (byCategory example_facts "PHYSICS")
  = page_of (byCategory example_facts "physics")
  ∧ status (byCategory example_facts "PHYSICS")
    = status (byCategory example_facts "physics").
Proof.
  apply (byCategory_case_of_name example_facts "PHYSICS" "physics").
  apply toLowerCase_same. reflexivity.
Defined.

(** X21. In a loaded corpus, with an offset and a limit that are not
    negative, the ids of a page are consecutive and start at
    [offset + 1]. *)
Theorem listPage_ids factsData limit_q offset_q l o :
  parseInt (nullish limit_q "100") = Num l →
  parseInt (nullish offset_q "0") = Num o →
  0 ≤ o → 0 ≤ l →
  id <$> page_of (listPage (load factsData) limit_q offset_q)
  = seqZ (o + 1)
      (Z.of_nat (length (page_of (listPage (load factsData) limit_q offset_q)))).
Proof.
  intros Hl Ho Hnn Hlim.
  rewrite (listPage_data (load factsData) limit_q offset_q l o) by done.
  cbn [page_of body json].
  rewrite length_take, length_drop, length_load.
  replace (Z.to_nat (Z.min l 1000))
    with (Z.to_nat (o + Z.min l 1000 - Z.max o 0)) at 1 by lia.
  rewrite <- positions_between_spec.
  rewrite ids_positions_between_load by done.
  destruct (decide (o ≤ Z.of_nat (length factsData))).
  - f_equal. lia.
  - rewrite !seqZ_nil by lia. done.
Qed.

Lemma listPage_ids_witness :
  id <$> page_of (listPage example_facts (Some "3") (Some "1")) = seqZ 2 3.
Proof.
  apply (listPage_ids example_data (Some "3") (Some "1") 3 1);
    [reflexivity | reflexivity | lia | lia].
Defined.
